(** * github-actions: the run-completion monitor

    A shallow embedding of the Go sources of kevinburke/github-actions
    (package [lib] and the [main] package of the command) together with the
    properties of the log tail extractor, the progress throttle, the error
    classifier, the run records, the job summary and the polling loop.

    Conventions of the embedding:
    - Go [int], [int64] and [time.Duration] values are integers in [Z];
      where the Go code relies on 64-bit wrap-around or saturation the
      wrap-around is written out ([wrap64], [Sub], [Round]).
    - A [[]byte] is a [list byte]; a Go [string] is a [string].
    - A [time.Time] is an instant counted in nanoseconds, an integer in [Z].
    - A run-time panic of a slice expression is the result [None]. *)

From Stdlib Require Import ZArith List Bool Lia.
From Stdlib.Strings Require Import String Ascii Byte.
Import ListNotations.

Local Open Scope Z_scope.

(** ** Bytes and slices *)

Abbreviation bytes := (list byte).

Definition nl : byte := x0a.
Definition tab : byte := x09.

Definition B (s : string) : bytes := list_byte_of_string s.

Definition len {A : Type} (s : list A) : Z := Z.of_nat (List.length s).

(** [s[:hi]]: panics unless [0 <= hi <= len(s)]. *)
Definition slice_to {A : Type} (s : list A) (hi : Z) : option (list A) :=
  if (0 <=? hi) && (hi <=? len s) then Some (firstn (Z.to_nat hi) s) else None.

(** [s[lo:]]: panics unless [0 <= lo <= len(s)]. *)
Definition slice_from {A : Type} (s : list A) (lo : Z) : option (list A) :=
  if (0 <=? lo) && (lo <=? len s) then Some (skipn (Z.to_nat lo) s) else None.

(** [bytes.IndexByte(s, c)]: index of the first [c] in [s], or [-1]. *)
Fixpoint IndexByte (s : bytes) (c : byte) : Z :=
  match s with
  | [] => -1
  | b :: s' =>
      if Byte.eqb b c then 0
      else let i := IndexByte s' c in if i =? -1 then -1 else i + 1
  end.

(** [bytes.LastIndexByte(s, c)]: index of the last [c] in [s], or [-1]. *)
Fixpoint LastIndexByte (s : bytes) (c : byte) : Z :=
  match s with
  | [] => -1
  | b :: s' =>
      let i := LastIndexByte s' c in
      if i =? -1 then (if Byte.eqb b c then 0 else -1) else i + 1
  end.

(** [bytes.Repeat(b, count)] for a one-byte [b] and [count >= 0]. *)
Definition Repeat (b : byte) (count : Z) : bytes := repeat b (Z.to_nat count).

(** The ASCII digit of [d], for [0 <= d <= 9]. *)
Definition digit (d : Z) : byte :=
  match Byte.of_N (Z.to_N (48 + d)) with
  | Some b => b
  | None => x30
  end.

Definition byte_val (b : byte) : Z := Z.of_N (Byte.to_N b).

(** A pointer or interface compared with [nil]. *)
Definition is_None {A : Type} (p : option A) : bool :=
  match p with None => true | Some _ => false end.

(** ** The built-in interface [error]

    An error value is modelled by its dynamic type and the fields the
    program inspects.  A pointer held by a non-nil interface value is taken
    to be non-nil. *)

Inductive error : Type :=
| nil_error                                             (* the nil interface *)
| url_Error (Op URL : string) (Err : error)            (* [*url.Error] *)
| net_OpError (Op Net : string) (Err : error)          (* [*net.OpError] *)
| net_DNSError (Err Name : string) (IsTimeout IsTemporary : bool)
                                                       (* [*net.DNSError] *)
| net_UnknownNetworkError (s : string)                 (* [net.UnknownNetworkError] *)
| other_error (message : string) (timeout temporary : option bool).
  (* a value of any other dynamic type: its message, and the results of its
     methods [Timeout() bool] and [Temporary() bool] where it has them *)

Definition is_nil (err : error) : bool :=
  match err with nil_error => true | _ => false end.

(** The method [Timeout() bool] of the dynamic type, where there is one.
    [*url.Error] and [*net.OpError] ask the error they wrap. *)
Fixpoint Timeout (err : error) : option bool :=
  match err with
  | nil_error => None
  | url_Error _ _ e | net_OpError _ _ e =>
      Some match Timeout e with Some t => t | None => false end
  | net_DNSError _ _ t _ => Some t
  | net_UnknownNetworkError _ => Some false
  | other_error _ t _ => t
  end.

(** Whether the dynamic type implements the interface [net.Error], that is
    has the methods [Error], [Timeout] and [Temporary]. *)
Definition implements_net_Error (err : error) : bool :=
  match err with
  | nil_error => false
  | url_Error _ _ _ | net_OpError _ _ _ | net_DNSError _ _ _ _
  | net_UnknownNetworkError _ => true
  | other_error _ (Some _) (Some _) => true
  | other_error _ _ _ => false
  end.

(** [errors.New(text)] and [fmt.Errorf] without the verb [%w]. *)
Definition errors_New (text : string) : error := other_error text None None.

(** ** package time *)

Module time.

Definition Time := Z.
Definition Duration := Z.

Definition Nanosecond : Duration := 1.
Definition Microsecond : Duration := 1000 * Nanosecond.
Definition Millisecond : Duration := 1000 * Microsecond.
Definition Second : Duration := 1000 * Millisecond.
Definition Minute : Duration := 60 * Second.
Definition Hour : Duration := 60 * Minute.

Definition minDuration : Duration := - 2 ^ 63.
Definition maxDuration : Duration := 2 ^ 63 - 1.

(** Two's complement wrap-around of 64-bit signed arithmetic. *)
Definition wrap64 (z : Z) : Z := (z + 2 ^ 63) mod 2 ^ 64 - 2 ^ 63.

(** The zero [Time], January 1 of year 1, counted from the Unix epoch. *)
Definition zero : Time := -62135596800 * Second.

(** [t.Add(d)]. *)
Definition Add (t : Time) (d : Duration) : Time := t + d.

(** [t.Before(u)]. *)
Definition Before (t u : Time) : bool := t <? u.

(** [t.Sub(u)]: the difference, saturated to the range of a Duration. *)
Definition Sub (t u : Time) : Duration :=
  let d := t - u in
  if d <? minDuration then minDuration
  else if maxDuration <? d then maxDuration
  else d.

(** [lessThanHalf(x, y)]: [uint64(x)+uint64(x) < uint64(y)]. *)
Definition lessThanHalf (x y : Duration) : bool :=
  (x + x) mod 2 ^ 64 <? y mod 2 ^ 64.

(** [d.Round(m)]: nearest multiple of [m], halfway values away from zero,
    saturated on overflow. *)
Definition Round (d m : Duration) : Duration :=
  if m <=? 0 then d
  else
    let r := Z.rem d m in
    if d <? 0 then
      let r := - r in
      if lessThanHalf r m then wrap64 (d + r)
      else
        let d1 := wrap64 (d - m + r) in
        if d1 <? d then d1 else minDuration
    else
      if lessThanHalf r m then wrap64 (d - r)
      else
        let d1 := wrap64 (d + m - r) in
        if d <? d1 then d1 else maxDuration.

(** [fmtInt]: the decimal digits of [v >= 0], written in front of [acc].
    [fuel] bounds the number of digits. *)
Fixpoint fmtInt_loop (fuel : nat) (v : Z) (acc : bytes) : bytes :=
  match fuel with
  | O => acc
  | S fuel' =>
      if 0 <? v
      then fmtInt_loop fuel' (v / 10) (digit (v mod 10) :: acc)
      else acc
  end.

Definition fmtInt (v : Z) (acc : bytes) : bytes :=
  if v =? 0 then x30 :: acc
  else fmtInt_loop (S (Z.to_nat (Z.log2 v))) v acc.

(** [fmtFrac]: the fraction of [v / 10^prec] without trailing zeros (and
    without the decimal point when the fraction is zero), written in front
    of [acc]; also returns [v / 10^prec]. *)
Fixpoint fmtFrac_loop (prec : nat) (v : Z) (print : bool) (acc : bytes)
  : bytes * Z * bool :=
  match prec with
  | O => (acc, v, print)
  | S prec' =>
      let d := v mod 10 in
      let print := print || negb (d =? 0) in
      fmtFrac_loop prec' (v / 10) print
                   (if print then digit d :: acc else acc)
  end.

Definition fmtFrac (v : Z) (prec : nat) (acc : bytes) : bytes * Z :=
  let '(acc, v, print) := fmtFrac_loop prec v false acc in
  (if print then x2e :: acc else acc, v).

(** [d.String()], e.g. "1h2m0.5s", "250ms", "0s". *)
Definition String (d : Duration) : bytes :=
  let u := Z.abs d in
  let neg := d <? 0 in
  let body :=
    if u <? Second then
      if u =? 0 then B "0s"
      else if u <? Microsecond then
        let '(w, u) := fmtFrac u 0 (B "ns") in fmtInt u w
      else if u <? Millisecond then
        let '(w, u) := fmtFrac u 3 (xc2 :: xb5 :: B "s") in fmtInt u w
      else
        let '(w, u) := fmtFrac u 6 (B "ms") in fmtInt u w
    else
      let '(w, u) := fmtFrac u 9 (B "s") in
      let w := fmtInt (u mod 60) w in
      let u := u / 60 in
      if 0 <? u then
        let w := fmtInt (u mod 60) (x6d :: w) in
        let u := u / 60 in
        if 0 <? u then fmtInt u (x68 :: w) else w
      else w
  in
  if neg then x2d :: body else body.

End time.

(** ** package unicode/utf8 *)

Module utf8.

(** The entry of the table [first] for a leading byte [c >= 0x80]: the
    length of the encoding and the range accepted for its second byte;
    [None] for a byte that cannot start an encoding. *)
Definition first (c : Z) : option (nat * (Z * Z)) :=
  if c <? 194 then None
  else if c <=? 223 then Some (2%nat, (128, 191))
  else if c =? 224 then Some (3%nat, (160, 191))
  else if c <=? 236 then Some (3%nat, (128, 191))
  else if c =? 237 then Some (3%nat, (128, 159))
  else if c <=? 239 then Some (3%nat, (128, 191))
  else if c =? 240 then Some (4%nat, (144, 191))
  else if c <=? 243 then Some (4%nat, (128, 191))
  else if c =? 244 then Some (4%nat, (128, 143))
  else None.

Definition within (lo hi : Z) (b : byte) : bool :=
  (lo <=? byte_val b) && (byte_val b <=? hi).

(** Number of bytes consumed by [RuneCount] for the byte [c] followed by
    [rest]: the length of a well-formed encoding, otherwise 1. *)
Definition rune_size (c : byte) (rest : bytes) : nat :=
  if byte_val c <? 128 then 1%nat
  else
    match first (byte_val c) with
    | None => 1%nat
    | Some (size, (lo, hi)) =>
        match size, rest with
        | 2%nat, b1 :: _ =>
            if within lo hi b1 then 2%nat else 1%nat
        | 3%nat, b1 :: b2 :: _ =>
            if within lo hi b1 && within 128 191 b2 then 3%nat else 1%nat
        | 4%nat, b1 :: b2 :: b3 :: _ =>
            if within lo hi b1 && within 128 191 b2 && within 128 191 b3
            then 4%nat else 1%nat
        | _, _ => 1%nat
        end
    end.

(** [count skip p]: runes in [p] once its first [skip] bytes, which belong
    to the rune before, are passed over. *)
Fixpoint count (skip : nat) (p : bytes) : Z :=
  match p with
  | [] => 0
  | c :: rest =>
      match skip with
      | S skip' => count skip' rest
      | O => 1 + count (pred (rune_size c rest)) rest
      end
  end.

(** [utf8.RuneCount(p)]; an ill-formed byte counts as one rune. *)
Definition RuneCount (p : bytes) : Z := count 0 p.

End utf8.

(** ** package fmt *)

Module fmt.

(** The verb [%d] applied to an integer. *)
Definition fmt_d (z : Z) : bytes :=
  if z <? 0 then x2d :: time.fmtInt (- z) [] else time.fmtInt z [].

(** The verb [%-8s]: the string, then spaces up to a width of 8 runes. *)
Definition fmt_pad8 (s : bytes) : bytes :=
  s ++ repeat x20 (Z.to_nat (8 - utf8.RuneCount s)).

End fmt.

(** ** package text/tabwriter

    The writer created by [tabwriter.NewWriter(&buf, 0, 0, 1, ' ', 0)]:
    minimal cell width 0, padding 1, padding with spaces, cells aligned to
    the left, no flags. *)

Module tabwriter.

Definition minwidth : Z := 0.
Definition padding : Z := 1.
Definition padchar : byte := x20.
Definition Escape : byte := xff.

Record cell : Type := mkCell {
  text : bytes;    (* the bytes of the cell; its [size] is their number *)
  width : Z;       (* cell width in runes *)
  htab : bool      (* the cell is terminated by a '\t' *)
}.

Definition line := list cell.

Record Writer : Type := mkWriter {
  output : bytes;        (* what was written to the underlying buffer *)
  lines : list line;     (* the terminated lines held back, oldest first *)
  cur_line : line;       (* the cells of the line being collected *)
  cur_text : bytes;      (* the text of the cell being collected *)
  cur_width : Z;         (* its width as far as it was computed *)
  uncounted : bytes;     (* its text behind [pos], not yet in [cur_width] *)
  endChar : bool         (* inside an escaped segment *)
}.

Definition NewWriter (buf : bytes) : Writer :=
  mkWriter buf [] [] [] 0 [] false.

(** One cell as [writeLines] prints it in column [j]. *)
Definition write_cell (widths : list Z) (j : nat) (c : cell) : bytes :=
  text c ++
  match nth_error widths j with
  | Some cellw => repeat padchar (Z.to_nat (cellw - width c))
  | None => []
  end.

Fixpoint write_cells (widths : list Z) (j : nat) (l : line) : bytes :=
  match l with
  | [] => []
  | c :: l' => write_cell widths j c ++ write_cells widths (S j) l'
  end.

(** A line has a cell in [column] when a later cell follows it. *)
Definition in_column (column : nat) (l : line) : bool :=
  (S column <? List.length l)%nat.

Inductive segment : Type :=
| Plain (l : line)           (* a line without a cell in the column *)
| Block (b : list line).     (* a column block: consecutive lines with one *)

Fixpoint split_blocks (column : nat) (ls : list line) : list segment :=
  match ls with
  | [] => []
  | l :: rest =>
      let segs := split_blocks column rest in
      if in_column column l then
        match segs with
        | Block b :: segs' => Block (l :: b) :: segs'
        | _ => Block [l] :: segs
        end
      else Plain l :: segs
  end.

Definition block_width (column : nat) (b : list line) : Z :=
  fold_left
    (fun w l =>
       match nth_error l column with
       | Some c => Z.max w (width c + padding)
       | None => w
       end) b minwidth.

(** [format]: the text of every line, each printed with the widths of the
    column blocks it belongs to.  [depth] bounds the number of columns. *)
Fixpoint format (depth : nat) (widths : list Z) (ls : list line)
  : list bytes :=
  match depth with
  | O => map (write_cells widths 0) ls
  | S depth' =>
      let column := List.length widths in
      flat_map
        (fun seg =>
           match seg with
           | Plain l => [write_cells widths 0 l]
           | Block b =>
               format depth' (widths ++ [block_width column b]) b
           end)
        (split_blocks column ls)
  end.

(** The printed lines: a newline after each but the last buffered one. *)
Fixpoint join_lines (ls : list bytes) : bytes :=
  match ls with
  | [] => []
  | [l] => l
  | l :: ls' => l ++ nl :: join_lines ls'
  end.

Definition updateWidth (w : Writer) : Writer :=
  mkWriter (output w) (lines w) (cur_line w) (cur_text w)
           (cur_width w + utf8.RuneCount (uncounted w)) [] (endChar w).

Definition endEscape (w : Writer) : Writer :=
  let w := updateWidth w in
  mkWriter (output w) (lines w) (cur_line w) (cur_text w)
           (cur_width w - 2) [] false.

Definition terminateCell (w : Writer) (ht : bool) : Writer :=
  mkWriter (output w) (lines w)
           (cur_line w ++ [mkCell (cur_text w) (cur_width w) ht])
           [] 0 [] (endChar w).

Definition addLine (w : Writer) : Writer :=
  mkWriter (output w) (lines w ++ [cur_line w]) [] (cur_text w)
           (cur_width w) (uncounted w) (endChar w).

Definition flushNoDefers (w : Writer) : Writer :=
  let w :=
    if 0 <? len (cur_text w)
    then terminateCell (if endChar w then endEscape w else w) false
    else w in
  let all := lines w ++ [cur_line w] in
  let depth := fold_left (fun n l => Nat.max n (List.length l)) all 0%nat in
  mkWriter (output w ++ join_lines (format depth [] all))
           [] [] [] 0 [] false.

Definition append (w : Writer) (ch : byte) : Writer :=
  mkWriter (output w) (lines w) (cur_line w) (cur_text w ++ [ch])
           (cur_width w) (uncounted w ++ [ch]) (endChar w).

Definition startEscape (w : Writer) : Writer :=
  mkWriter (output w) (lines w) (cur_line w) (cur_text w)
           (cur_width w) (uncounted w) true.

Definition is_break (ch : byte) : bool :=
  Byte.eqb ch x09 || Byte.eqb ch x0b || Byte.eqb ch x0a || Byte.eqb ch x0c.

(** The effect of one byte passed to [Write]. *)
Definition write_byte (w : Writer) (ch : byte) : Writer :=
  if endChar w then
    if Byte.eqb ch Escape then endEscape (append w ch) else append w ch
  else if is_break ch then
    let w := terminateCell (updateWidth w) (Byte.eqb ch x09) in
    let ncells := List.length (cur_line w) in
    if Byte.eqb ch x0a || Byte.eqb ch x0c then
      let w := addLine w in
      if Byte.eqb ch x0c || (ncells =? 1)%nat then flushNoDefers w else w
    else w
  else if Byte.eqb ch Escape then append (startEscape (updateWidth w)) ch
  else append w ch.

Definition Write (w : Writer) (buf : bytes) : Writer :=
  fold_left write_byte buf w.

Definition Flush (w : Writer) : Writer := flushNoDefers w.

End tabwriter.

(** ** package lib: records and pure functions *)

Module lib.

Import time.

(** [PullRequestRef] represents a pull request reference in a workflow
    run. *)
Module PullRequestRef.
Record t : Type := mk {
  Number : Z;
  URL : string
}.
End PullRequestRef.

(** [WorkflowRun] represents a GitHub Actions workflow run. *)
Module WorkflowRun.

Record t : Type := mk {
  ID : Z;
  Name : string;
  HeadBranch : string;
  HeadSha : string;
  Path : string;
  RunNumber : Z;
  RunAttempt : Z;
  Event : string;
  DisplayTitle : string;
  Status : string;               (* queued, in_progress, completed *)
  Conclusion : option string;    (* success, failure, cancelled, ... *)
  WorkflowID : Z;
  URL : string;
  HTMLURL : string;
  CreatedAt : Time;
  UpdatedAt : Time;
  RunStartedAt : option Time;
  JobsURL : string;
  PullRequests : list PullRequestRef.t
}.

(** [IsCompleted] returns true if the workflow run has completed. *)
Definition IsCompleted (r : t) : bool :=
  String.eqb (Status r) "completed".

(** [IsSuccess] returns true if the workflow run completed
    successfully. *)
Definition IsSuccess (r : t) : bool :=
  IsCompleted r &&
  match Conclusion r with
  | Some c => String.eqb c "success"
  | None => false
  end.

(** [IsFailed] returns true if the workflow run failed. *)
Definition IsFailed (r : t) : bool :=
  if negb (IsCompleted r) || is_None (Conclusion r)
  then false
  else
    match Conclusion r with
    | Some c =>
        String.eqb c "failure" || String.eqb c "cancelled"
        || String.eqb c "timed_out"
    | None => false
    end.

(** [Duration] returns the duration of the workflow run.  [now] is the
    reading of [time.Now()], which the Go code takes only for a run that
    has started and is not completed. *)
Definition Duration (now : Time) (r : t) : Duration :=
  match RunStartedAt r with
  | None => 0
  | Some started =>
      let end_ := if IsCompleted r then UpdatedAt r else now in
      Round (Sub end_ started) Second
  end.

End WorkflowRun.

(** [Step] represents a step within a job. *)
Module Step.
Record t : Type := mk {
  Name : string;
  Status : string;
  Conclusion : option string;
  Number : Z;
  StartedAt : option Time;
  CompletedAt : option Time
}.
End Step.

(** [Job] represents a job within a workflow run. *)
Module Job.

Record t : Type := mk {
  ID : Z;
  RunID : Z;
  Name : string;
  Status : string;
  Conclusion : option string;
  StartedAt : option Time;
  CompletedAt : option Time;
  Steps : list Step.t;
  HTMLURL : string
}.

(** [Failed] returns true if the job failed. *)
Definition Failed (j : t) : bool :=
  match Conclusion j with
  | Some c => String.eqb c "failure"
  | None => false
  end.

End Job.

(** [JobsResponse] represents the response from listing jobs for a
    workflow run. *)
Module JobsResponse.
Record t : Type := mk {
  TotalCount : Z;
  Jobs : list Job.t
}.
End JobsResponse.

(** *** The job summary *)

Definition color_on : bytes := x1b :: B "[38;05;160m".
Definition color_off : bytes := x1b :: B "[0m".

(** The duration shown for a job. *)
Definition job_duration (job : Job.t) : Duration :=
  let duration :=
    match Job.StartedAt job, Job.CompletedAt job with
    | Some started, Some completed => Sub completed started
    | _, _ => 0
    end in
  if Minute <? duration then Round duration Second
  else Round duration (10 * Millisecond).

(** What one pass through the loop of [buildJobsSummary] prints into the
    tabwriter: [fmt.Fprintf(writer, "%s\t%s\n", job.Name, durString)]. *)
Definition job_row (isatty : bool) (job : Job.t) : bytes :=
  let duration := job_duration job in
  let durString :=
    if Job.Failed job && isatty
    then color_on ++ fmt.fmt_pad8 (String duration) ++ color_off
    else String duration in
  B (Job.Name job) ++ [tab] ++ durString ++ [nl].

Fixpoint jobs_loop (isatty : bool) (jobs : list Job.t)
         (writer : tabwriter.Writer) (failedJob : option Job.t)
  : tabwriter.Writer * option Job.t :=
  match jobs with
  | [] => (writer, failedJob)
  | job :: jobs' =>
      let failedJob :=
        if Job.Failed job && is_None failedJob
        then Some job else failedJob in
      jobs_loop isatty jobs' (tabwriter.Write writer (job_row isatty job))
                failedJob
  end.

(** [buildJobsSummary]; [isatty] is the answer of [isatty()], that is of
    [term.IsTerminal(int(os.Stdout.Fd()))], during the call.  The job
    returned is the one the returned pointer refers to. *)
Definition buildJobsSummary (isatty : bool) (jobs : list Job.t)
  : bytes * option Job.t :=
  let buf := [nl] in
  let writer := tabwriter.NewWriter buf in
  let '(writer, failedJob) := jobs_loop isatty jobs writer None in
  (tabwriter.output (tabwriter.Flush writer), failedJob).

(** *** The log tail extractor *)

(** Outcome of one pass through the body of the [for] loop of
    [findBuildFailure]. *)
Inductive iteration : Type :=
| Next (newlineIdx : Z)      (* fall through to the next iteration *)
| Return (result : bytes)    (* [return log] *)
| Panic.                     (* slice bounds out of range *)

Definition loop_body (log : bytes) (newlineIdx : Z) : iteration :=
  match slice_to log (newlineIdx - 1) with
  | None => Panic
  | Some s =>
      let prevNewlineIdx := LastIndexByte s nl in
      if prevNewlineIdx =? -1 then Return log
      else Next (prevNewlineIdx + 1)
  end.

(** The loop [for count := 0; count < numOutputLines; count++], entered
    with [remaining = numOutputLines - count] iterations still to run. *)
Fixpoint loop (log : bytes) (remaining : nat) (newlineIdx : Z)
  : option bytes :=
  match remaining with
  | O => slice_from log newlineIdx
  | S remaining' =>
      match loop_body log newlineIdx with
      | Panic => None
      | Return r => Some r
      | Next newlineIdx' => loop log remaining' newlineIdx'
      end
  end.

(** [findBuildFailure] extracts the last N lines from the log. *)
Definition findBuildFailure (log : bytes) (numOutputLines : Z)
  : option bytes :=
  if len log =? 0 then Some log
  else loop log (Z.to_nat numOutputLines) (len log).

End lib.

(** ** The world outside the program

    The program talks to the clock, the terminal, git, the GitHub API and
    the cancellation context.  A session is modelled by the [history] of
    these interactions; what the world answers may depend on everything
    that happened before. *)

Module io.

Import time.

(** An operand of a [fmt.Printf] or [fmt.Println] call. *)
Inductive arg : Type :=
| arg_s (s : string)
| arg_d (z : Z).

Inductive event : Type :=
| ev_Now                                            (* [time.Now()] *)
| ev_Tip (branch : string)                          (* [git.Tip] *)
| ev_FindWorkflowRunsForCommit (owner repo sha : string)
| ev_ListJobs (owner repo : string) (runID : Z)
| ev_GetJobLogs (owner repo : string) (jobID : Z)
| ev_Println (args : list arg)                      (* [fmt.Println] *)
| ev_Printf (format : string) (args : list arg)     (* [fmt.Printf] *)
| ev_Write (data : bytes)                           (* [os.Stdout.Write] *)
| ev_Display (name message : string)                (* [bigtext.Client.Display] *)
| ev_select (timer : Duration).
  (* [select] between [ctx.Done()] and [time.After(timer)] *)

Definition history := list event.

Record World : Type := mkWorld {
  (** the reading of the clock *)
  Now : history -> Time;
  (** whether standard output is a terminal *)
  IsTerminal : history -> bool;
  (** [git.Tip(branch)] *)
  Tip : history -> string -> string * error;
  (** the method of [*RepoService] of the same name *)
  FindWorkflowRunsForCommit :
    history -> string -> string -> string
    -> list lib.WorkflowRun.t * error;
  (** [ListJobs], with [per_page=100] *)
  ListJobs :
    history -> string -> string -> Z -> lib.JobsResponse.t * error;
  (** [GetJobLogs] *)
  GetJobLogs : history -> string -> string -> Z -> bytes * error;
  (** at a [select]: [Some err] when [ctx.Done()] wins, with [err] the
      value of [ctx.Err()]; [None] when the timer fires first *)
  Done : history -> option error;
  (** the text of [err.Error()] for the error types of the standard
      library *)
  Error_text : error -> string
}.

(** [err.Error()]. *)
Definition Error (w : World) (err : error) : string :=
  match err with
  | other_error message _ _ => message
  | _ => Error_text w err
  end.

(** Computations that extend the history. *)
Definition M (A : Type) : Type := history -> A * history.

Definition ret {A : Type} (a : A) : M A := fun h => (a, h).

Definition bind {A B : Type} (m : M A) (f : A -> M B) : M B :=
  fun h => let '(a, h') := m h in f a h'.

(** An interaction [e], answered from the history before it. *)
Definition call {A : Type} (e : event) (answer : history -> A) : M A :=
  fun h => (answer h, h ++ [e]).

Definition emit (e : event) : M unit := call e (fun _ => tt).

End io.

Declare Scope io_scope.
Delimit Scope io_scope with io.
Notation "x <- m ;; k" := (io.bind m (fun x => k))
  (at level 61, m at next level, right associativity) : io_scope.
Notation "' p <- m ;; k" := (io.bind m (fun p => k))
  (at level 61, p pattern, m at next level, right associativity) : io_scope.
Notation "m ;;; k" := (io.bind m (fun _ => k))
  (at level 61, right associativity) : io_scope.

(** ** package lib: the methods of [*Client] *)

Module client.

Import io lib.
Local Open Scope io_scope.

(** [isatty]. *)
Definition isatty (w : World) : M bool := fun h => (IsTerminal w h, h).

(** [BuildJobsSummary] generates a summary of a workflow run's jobs. *)
Definition BuildJobsSummary (w : World) (owner repo : string)
           (run : WorkflowRun.t) : M bytes :=
  '(jobs, err) <- call (ev_ListJobs owner repo (WorkflowRun.ID run))
                       (fun h => ListJobs w h owner repo (WorkflowRun.ID run)) ;;
  if negb (is_nil err) then
    ret ([nl] ++ B "Error fetching jobs: " ++ B (Error w err) ++ [nl])
  else
    tty <- isatty w ;;
    let '(summary, _) := buildJobsSummary tty (JobsResponse.Jobs jobs) in
    ret summary.

(** The variable [failure] of [BuildSummary]: the tail of the log of the
    failed job, empty when there is no failed job or the log cannot be
    fetched. *)
Definition fetch_failure (w : World) (owner repo : string)
           (failedJob : option Job.t) (numOutputLines : Z)
  : M (option bytes) :=
  match failedJob with
  | Some job =>
      '(logs, err) <- call (ev_GetJobLogs owner repo (Job.ID job))
                           (fun h => GetJobLogs w h owner repo (Job.ID job)) ;;
      if is_nil err then ret (findBuildFailure logs numOutputLines)
      else ret (Some [])
  | None => ret (Some [])
  end.

(** The text ["\nLast %d lines of failed build output:\n\n"]. *)
Definition excerpt_heading (numOutputLines : Z) : bytes :=
  [nl] ++ B "Last " ++ fmt.fmt_d numOutputLines
       ++ B " lines of failed build output:" ++ [nl; nl].

(** The second buffer [buf2] of [BuildSummary]. *)
Definition buf2 (linelen : Z) (failure : bytes) (numOutputLines : Z)
  : bytes :=
  [nl]
  ++ (if 0 <? linelen then Repeat x3d linelen else [])
  ++ (if 0 <? len failure
      then excerpt_heading numOutputLines ++ failure else []).

(** [BuildSummary] generates a summary of a workflow run's jobs; [None]
    stands for a run-time panic. *)
Definition BuildSummary (w : World) (owner repo : string)
           (run : WorkflowRun.t) (numOutputLines : Z) : M (option bytes) :=
  let buf := [nl] in
  '(jobs, err) <- call (ev_ListJobs owner repo (WorkflowRun.ID run))
                       (fun h => ListJobs w h owner repo (WorkflowRun.ID run)) ;;
  if negb (is_nil err) then
    ret (Some (buf ++ B "Error fetching jobs: " ++ B (Error w err) ++ [nl]))
  else
    tty <- isatty w ;;
    let '(summary, failedJob) :=
      buildJobsSummary tty (JobsResponse.Jobs jobs) in
    failure <- fetch_failure w owner repo failedJob numOutputLines ;;
    match failure, slice_from summary 1 with
    | Some failure, Some summary1 =>
        let linelen := IndexByte summary1 nl in
        ret (Some (summary ++ buf2 linelen failure numOutputLines))
    | _, _ => ret None
    end.

End client.

(** ** package main *)

Module main.

Import time io lib.
Local Open Scope io_scope.

(** The type switch of [isHttpError]; its cases are tried in the order of
    the source, the [default] case last. *)
Definition type_switch (err : error) : bool :=
  match err with
  | net_OpError Op Net _ => String.eqb Op "dial" && String.eqb Net "tcp"
  | net_DNSError _ _ _ _ => true
  | _ =>
      if implements_net_Error err
      then match Timeout err with Some t => t | None => false end
      else false
  end.

(** [isHttpError] checks if the given error is a request timeout or a
    network failure - in those cases we want to just retry the request. *)
Definition isHttpError (err : error) : bool :=
  if is_nil err then false
  else
    let err :=
      match err with
      | url_Error _ _ uerr_Err => uerr_Err
      | _ => err
      end in
    type_switch err.

(** The interval chosen by the [switch] of [shouldPrint]. *)
Definition durToUse (duration : Duration) : Duration :=
  if 25 * Minute <? duration then 3 * Minute
  else if 8 * Minute <? duration then 2 * Minute
  else if 5 * Minute <? duration then 30 * Second
  else if 3 * Minute <? duration then 20 * Second
  else if Minute <? duration then 15 * Second
  else 10 * Second.

(** [shouldPrint]; [now] is the reading of [time.Now()]. *)
Definition shouldPrint (now : Time) (lastPrinted : Time)
           (duration : Duration) : bool :=
  Before (Add lastPrinted (durToUse duration)) now.

(** [git.RemoteURL], as far as the program reads it. *)
Record RemoteURL : Type := mkRemoteURL {
  Host : string;
  Path : string;
  RepoName : string
}.

(** How a call of [doWait] ends. *)
Inductive outcome : Type :=
| Returns (err : error)
| Panics.

(** How one pass through the [for] loop of [doWait] ends. *)
Inductive control : Type :=
| Continue (lastPrintedAt : Time)
| Stop (o : outcome).

Definition now (w : World) : M Time := call ev_Now (Now w).

(** [select] between [ctx.Done()] and [time.After(timer)]. *)
Definition wait (w : World) (timer : Duration) (lastPrintedAt : Time)
  : M control :=
  done <- call (ev_select timer) (Done w) ;;
  match done with
  | Some ctx_Err => ret (Stop (Returns ctx_Err))
  | None => ret (Continue lastPrintedAt)
  end.

(** [run.Duration()], which reads the clock only for a run that has
    started and is not completed. *)
Definition run_Duration (w : World) (run : WorkflowRun.t) : M Duration :=
  if negb (is_None (WorkflowRun.RunStartedAt run))
     && negb (WorkflowRun.IsCompleted run)
  then t <- now w ;; ret (WorkflowRun.Duration t run)
  else ret (WorkflowRun.Duration time.zero run).

(** The loop that checks if all runs are complete. *)
Fixpoint inspect (runs : list WorkflowRun.t) (allComplete anyFailed : bool)
         (failedRun : option WorkflowRun.t)
  : bool * bool * option WorkflowRun.t :=
  match runs with
  | [] => (allComplete, anyFailed, failedRun)
  | run :: runs' =>
      let allComplete :=
        if negb (WorkflowRun.IsCompleted run) then false else allComplete in
      let '(anyFailed, failedRun) :=
        if WorkflowRun.IsFailed run
        then (true, if is_None failedRun then Some run else failedRun)
        else (anyFailed, failedRun) in
      inspect runs' allComplete anyFailed failedRun
  end.

(** The branch taken on a retryable error of the poll. *)
Definition retry (w : World) (err : error) : M control :=
  emit (ev_Printf "Caught network error: %s. Continuing\n"
                  [arg_s (Error w err)]) ;;;
  lastPrintedAt <- now w ;;
  wait w (2 * Second) lastPrintedAt.

(** The branch taken when the poll returns no runs. *)
Definition no_runs (w : World) (tip : string) : M control :=
  if (String.length tip <? 8)%nat then ret (Stop Panics)
  else
    emit (ev_Printf "No workflow runs found for %s yet, waiting...\n"
                    [arg_s (substring 0 8 tip)]) ;;;
    lastPrintedAt <- now w ;;
    wait w (5 * Second) lastPrintedAt.

(** The branch [anyFailed && failedRun != nil]. *)
Definition report_failure (w : World) (owner repo branch : string)
           (failedRun : WorkflowRun.t) (numOutputLines : Z) : M control :=
  data <- client.BuildSummary w owner repo failedRun numOutputLines ;;
  match data with
  | None => ret (Stop Panics)
  | Some data =>
      emit (ev_Write data) ;;;
      emit (ev_Printf "\nURL:\n%s\n"
                      [arg_s (WorkflowRun.HTMLURL failedRun)]) ;;;
      emit (ev_Display ("github-actions (" ++ repo ++ ")") "build failed") ;;;
      ret (Stop (Returns (errors_New ("Build on " ++ branch ++ " failed!"))))
  end.

Fixpoint max_duration (w : World) (runs : list WorkflowRun.t)
         (totalDuration : Duration) : M Duration :=
  match runs with
  | [] => ret totalDuration
  | run :: runs' =>
      d <- run_Duration w run ;;
      max_duration w runs' (if totalDuration <? d then d else totalDuration)
  end.

Fixpoint print_summaries (w : World) (owner repo : string)
         (runs : list WorkflowRun.t) : M unit :=
  match runs with
  | [] => ret tt
  | run :: runs' =>
      emit (ev_Printf "\nWorkflow %q (run %d)\n"
                      [arg_s (WorkflowRun.Name run);
                       arg_d (WorkflowRun.RunNumber run)]) ;;;
      summary <- client.BuildJobsSummary w owner repo run ;;
      let summary :=
        match summary with
        | b :: summary1 => if Byte.eqb b nl then summary1 else summary
        | [] => summary
        end in
      emit (ev_Write summary) ;;;
      print_summaries w owner repo runs'
  end.

(** The lines printed after the summaries of a successful build. *)
Definition print_links (remote : RemoteURL) (branch : string)
           (runs : list WorkflowRun.t) : M unit :=
  let owner := Path remote in
  let repo := RepoName remote in
  match runs with
  | [] => ret tt
  | run0 :: _ =>
      emit (ev_Printf "%s\n" [arg_s (WorkflowRun.HTMLURL run0)]) ;;;
      match WorkflowRun.PullRequests run0 with
      | pr :: _ =>
          emit (ev_Printf "https://%s/%s/%s/pull/%d\n"
                          [arg_s (Host remote); arg_s owner; arg_s repo;
                           arg_d (PullRequestRef.Number pr)])
      | [] =>
          emit (ev_Printf "https://%s/%s/%s/tree/%s\n"
                          [arg_s (Host remote); arg_s owner; arg_s repo;
                           arg_s branch])
      end
  end.

(** The branch taken when all runs succeeded. *)
Definition report_success (w : World) (remote : RemoteURL)
           (branch : string) (runs : list WorkflowRun.t) : M control :=
  let owner := Path remote in
  let repo := RepoName remote in
  totalDuration <- max_duration w runs 0 ;;
  print_summaries w owner repo runs ;;;
  emit (ev_Printf "\n" []) ;;;
  emit (ev_Println [arg_s (string_of_list_byte (Repeat x3d 40))]) ;;;
  emit (ev_Printf "Tests on %s took %s. Quitting.\n"
                  [arg_s branch;
                   arg_s (string_of_list_byte (String totalDuration))]) ;;;
  print_links remote branch runs ;;;
  emit (ev_Display ("github-actions (" ++ repo ++ ")")
                   (branch ++ " build complete!")) ;;;
  ret (Stop (Returns nil_error)).

Fixpoint print_status (w : World) (runs : list WorkflowRun.t) : M unit :=
  match runs with
  | [] => ret tt
  | run :: runs' =>
      let status :=
        match WorkflowRun.Conclusion run with
        | Some c => if WorkflowRun.IsCompleted run then c
                    else WorkflowRun.Status run
        | None => WorkflowRun.Status run
        end in
      d <- run_Duration w run ;;
      emit (ev_Printf "Workflow %q %s (%s elapsed)\n"
                      [arg_s (WorkflowRun.Name run); arg_s status;
                       arg_s (string_of_list_byte (String d))]) ;;;
      print_status w runs'
  end.

(** The branch taken while some run is still running. *)
Definition still_running (w : World) (runs : list WorkflowRun.t)
           (lastPrintedAt : Time) (elapsed : Duration) : M control :=
  t <- now w ;;
  lastPrintedAt <-
    (if shouldPrint t lastPrintedAt elapsed
     then print_status w runs ;;; now w
     else ret lastPrintedAt) ;;
  wait w (3 * Second) lastPrintedAt.

(** One pass through the [for] loop of [doWait]. *)
Definition cycle (w : World) (remote : RemoteURL) (branch tip : string)
           (numOutputLines : Z) (startTime lastPrintedAt : Time)
  : M control :=
  let owner := Path remote in
  let repo := RepoName remote in
  '(runs, err) <- call (ev_FindWorkflowRunsForCommit owner repo tip)
                       (fun h => FindWorkflowRunsForCommit w h owner repo tip) ;;
  if negb (is_nil err) then
    if isHttpError err then retry w err
    else ret (Stop (Returns err))
  else if len runs =? 0 then no_runs w tip
  else
    let '(allComplete, anyFailed, failedRun) :=
      inspect runs true false None in
    t <- now w ;;
    let elapsed := Round (Sub t startTime) Second in
    if allComplete then
      match anyFailed, failedRun with
      | true, Some failedRun =>
          report_failure w owner repo branch failedRun numOutputLines
      | _, _ => report_success w remote branch runs
      end
    else still_running w runs lastPrintedAt elapsed.

(** The [for] loop, cut off after [fuel] passes. *)
Fixpoint poll (fuel : nat) (w : World) (remote : RemoteURL)
         (branch tip : string) (numOutputLines : Z)
         (startTime lastPrintedAt : Time) : M (option outcome) :=
  match fuel with
  | O => ret None
  | S fuel' =>
      c <- cycle w remote branch tip numOutputLines startTime lastPrintedAt ;;
      match c with
      | Stop o => ret (Some o)
      | Continue lastPrintedAt' =>
          poll fuel' w remote branch tip numOutputLines startTime
               lastPrintedAt'
      end
  end.

(** The statements of [doWait] before the loop; [inl err] when [git.Tip]
    fails. *)
Definition prologue (w : World) (branch : string)
  : M (error + string * Time) :=
  '(tip, err) <- call (ev_Tip branch) (fun h => Tip w h branch) ;;
  if negb (is_nil err) then ret (inl err)
  else
    emit (ev_Println [arg_s "Waiting for GitHub Actions on"; arg_s branch;
                      arg_s "to complete"]) ;;;
    startTime <- now w ;;
    ret (inr (tip, startTime)).

(** [doWait]; [None] when the loop is still running after [fuel]
    passes. *)
Definition doWait (fuel : nat) (w : World) (remote : RemoteURL)
           (branch : string) (numOutputLines : Z) : M (option outcome) :=
  p <- prologue w branch ;;
  match p with
  | inl err => ret (Some (Returns err))
  | inr (tip, startTime) =>
      poll fuel w remote branch tip numOutputLines startTime time.zero
  end.

End main.

(** ** Vocabulary of the properties *)

(** *** Lines of a log *)

Module tail.

(** The lines of a buffer, in order: every newline ends a line, and the
    bytes behind the last newline, if any, form one more line. *)
Fixpoint lines (s : bytes) : list bytes :=
  match s with
  | [] => []
  | b :: s' =>
      if Byte.eqb b nl then [b] :: lines s'
      else
        match lines s' with
        | [] => [[b]]
        | l :: ls => (b :: l) :: ls
        end
  end.

(** A line that ends in a newline. *)
Definition terminated (l : bytes) : bool :=
  match rev l with
  | b :: _ => Byte.eqb b nl
  | [] => false
  end.

(** The newline-terminated lines of a buffer. *)
Definition terminated_lines (s : bytes) : list bytes :=
  filter terminated (lines s).

(** The last [n] elements of a list, all of them when there are fewer. *)
Definition last_n {A : Type} (n : nat) (l : list A) : list A :=
  skipn (List.length l - n) l.

Definition is_suffix (r s : bytes) : Prop := exists p, s = p ++ r.

Definition ends_with_newline (s : bytes) : Prop := exists p, s = p ++ [nl].

(** The states [(count, newlineIdx)] in which the loop of
    [findBuildFailure log n] evaluates its condition. *)
Inductive reaches (log : bytes) (n : Z) : Z -> Z -> Prop :=
| reaches_entry :
    len log <> 0 -> reaches log n 0 (len log)
| reaches_next count newlineIdx newlineIdx' :
    reaches log n count newlineIdx ->
    count < n ->
    lib.loop_body log newlineIdx = lib.Next newlineIdx' ->
    reaches log n (count + 1) newlineIdx'.

(** The tail extraction as the specification words it, counting only
    newline-terminated lines. *)
Definition as_specified : Prop :=
  forall (log : bytes) (n : Z),
    0 <= n ->
    exists r,
      lib.findBuildFailure log n = Some r /\
      is_suffix r log /\
      (log = [] \/ len (terminated_lines log) <= n -> r = log) /\
      (~ (log = [] \/ len (terminated_lines log) <= n) ->
       r = List.concat (last_n (Z.to_nat n) (terminated_lines log))).

End tail.

(** *** The throttle table *)

Module throttle.

Import time.

(** The minimum interval between prints, row by row as the table of the
    specification gives it. *)
Definition interval (elapsed : Duration) : Duration :=
  if elapsed <=? 1 * Minute then 10 * Second
  else if (1 * Minute <? elapsed) && (elapsed <=? 3 * Minute) then 15 * Second
  else if (3 * Minute <? elapsed) && (elapsed <=? 5 * Minute) then 20 * Second
  else if (5 * Minute <? elapsed) && (elapsed <=? 8 * Minute) then 30 * Second
  else if (8 * Minute <? elapsed) && (elapsed <=? 25 * Minute) then 2 * Minute
  else 3 * Minute.

(** The throttle worded with [>=]: a print is due as soon as the time
    since the last print reaches the interval. *)
Definition due_at_the_interval : Prop :=
  forall (now lastPrinted : Time) (elapsed : Duration),
    main.shouldPrint now lastPrinted elapsed = true
    <-> now - lastPrinted >= interval elapsed.

End throttle.

(** *** Timeouts *)

Module classifier.

(** After the unwrapping of a [*url.Error], the error the type switch
    of [isHttpError] looks at. *)
Definition unwrapped (err : error) : error :=
  match err with
  | url_Error _ _ e => e
  | _ => err
  end.

(** A network error whose [Timeout()] reports true. *)
Definition timeout_signal (err : error) : Prop :=
  implements_net_Error err = true /\ Timeout err = Some true.

(** Every error with a timeout signal is retried. *)
Definition timeouts_retried : Prop :=
  forall err : error,
    timeout_signal (unwrapped err) -> main.isHttpError err = true.

(** A read on a TCP connection that ran into its deadline:
    [&net.OpError{Op: "read", Net: "tcp", Err: os.ErrDeadlineExceeded}]. *)
Definition read_timeout : error :=
  net_OpError "read" "tcp" (other_error "i/o timeout" (Some true) (Some true)).

End classifier.

(** *** Durations of runs *)

Module duration.

Import time lib.

Definition never_negative : Prop :=
  forall (now : Time) (r : WorkflowRun.t), 0 <= WorkflowRun.Duration now r.

(** A run with the given status and timestamps. *)
Definition run (status : string) (conclusion : option string)
           (started : option Time) (updated : Time) : WorkflowRun.t :=
  WorkflowRun.mk 1 "ci" "main" "" "" 1 1 "push" "" status conclusion 1 "" ""
                 0 updated started "" [].

(** A run that has not started, with the given status and conclusion. *)
Definition unstarted (status : string) (conclusion : option string)
  : WorkflowRun.t :=
  run status conclusion None 0.

(** A run in progress whose start stamp, set by the server, is two
    seconds ahead of the local clock. *)
Definition started_ahead_of_clock : WorkflowRun.t :=
  run "in_progress" None (Some (10 * Second)) (10 * Second).

End duration.

(** *** The job summary and the failure report *)

Module summary.

Import lib.

(** The summary does not depend on the terminal. *)
Definition independent_of_terminal : Prop :=
  forall (isatty isatty' : bool) (jobs : list Job.t),
    buildJobsSummary isatty jobs = buildJobsSummary isatty' jobs.

(** A completed job that took [d]. *)
Definition job_lasting (name : string) (conclusion : string)
           (d : time.Duration) : Job.t :=
  Job.mk 7 1 name "completed" (Some conclusion) (Some 0) (Some d) [] "".

(** A job that took one second. *)
Definition job (name : string) (conclusion : string) : Job.t :=
  job_lasting name conclusion time.Second.

(** The line of '=' signs under the table: as long as the first line of
    the table. *)
Definition rule (summary : bytes) : bytes :=
  let linelen := IndexByte (skipn 1 summary) nl in
  if 0 <? linelen then Repeat x3d linelen else [].

End summary.

(** *** Sessions *)

Module session.

Import time io lib main.

(** The requests sent to the GitHub API. *)
Definition is_api (e : event) : bool :=
  match e with
  | ev_FindWorkflowRunsForCommit _ _ _ | ev_ListJobs _ _ _
  | ev_GetJobLogs _ _ _ => true
  | _ => false
  end.

Definition api_calls (h : history) : history := filter is_api h.

Definition is_GetJobLogs (e : event) : bool :=
  match e with
  | ev_GetJobLogs _ _ _ => true
  | _ => false
  end.

(** No job log was fetched in the course of [h]. *)
Definition no_log_fetch (h : history) : Prop :=
  Forall (fun e => is_GetJobLogs e = false) h.

(** [at_poll w remote branch n k tip startTime lastPrintedAt h]: a call
    of [doWait] started with an empty history is about to send its poll
    number [k] (counted from 0), with the local variables and the history
    given. *)
Inductive at_poll (w : World) (remote : RemoteURL) (branch : string)
          (numOutputLines : Z)
  : nat -> string -> Time -> Time -> history -> Prop :=
| at_first_poll tip startTime h :
    prologue w branch [] = (inr (tip, startTime), h) ->
    at_poll w remote branch numOutputLines 0 tip startTime time.zero h
| at_next_poll k tip startTime lastPrintedAt lastPrintedAt' h h' :
    at_poll w remote branch numOutputLines k tip startTime lastPrintedAt h ->
    cycle w remote branch tip numOutputLines startTime lastPrintedAt h
    = (Continue lastPrintedAt', h') ->
    at_poll w remote branch numOutputLines (S k) tip startTime
            lastPrintedAt' h'.

End session.

(** *** Worlds for the examples *)

Module scenario.

Import time io lib.
Local Open Scope string_scope.

Definition sha : string := "3f2a9c1d5b7e8f60412a3b4c5d6e7f8091a2b3c4".

Definition remote : main.RemoteURL :=
  main.mkRemoteURL "github.com" "kevinburke" "github-actions".

Definition succeeded_run : WorkflowRun.t :=
  duration.run "completed" (Some "success") (Some 0) (300 * Second).

Definition failed_run : WorkflowRun.t :=
  duration.run "completed" (Some "failure") (Some 0) (300 * Second).

(** The first poll finds one run that succeeded. *)
Definition build_succeeds : World :=
  mkWorld (fun _ => 1000 * Second)
          (fun _ => false)
          (fun _ _ => (sha, nil_error))
          (fun _ _ _ _ => ([succeeded_run], nil_error))
          (fun _ _ _ _ =>
             (JobsResponse.mk 1 [summary.job "test" "success"], nil_error))
          (fun _ _ _ _ => ([], nil_error))
          (fun _ => None)
          (fun _ => "network error").

(** The job "test" failed and its log cannot be fetched. *)
Definition log_fetch_fails : World :=
  mkWorld (fun _ => 1000 * Second)
          (fun _ => false)
          (fun _ _ => (sha, nil_error))
          (fun _ _ _ _ => ([failed_run], nil_error))
          (fun _ _ _ _ =>
             (JobsResponse.mk 1 [summary.job "test" "failure"], nil_error))
          (fun _ _ _ _ => ([], errors_New "HTTP 404: Not Found"))
          (fun _ => None)
          (fun _ => "network error").

End scenario.

(** ** package lib: the token of a host *)

Module config.

(** [Host] represents a GitHub host configuration. *)
Record Host : Type := mkHost {
  Token : string
}.

(** [FileConfig] represents the configuration file structure.  The map
    [Hosts] is only read: it is modelled by its lookup. *)
Record FileConfig : Type := mkFileConfig {
  Default : string;
  Hosts : string -> option Host
}.

(** What [GetToken] asks the operating system and the libraries. *)
Record System : Type := mkSystem {
  (** [os.LookupEnv] *)
  LookupEnv : string -> option string;
  (** [os.UserHomeDir()] *)
  UserHomeDir : string * error;
  (** for [os.Stat(path)]: whether its error is [os.ErrNotExist] *)
  NotExist : string -> bool;
  (** [filepath.Join] *)
  Join : list string -> string;
  (** the error of [os.Open(path)] *)
  Open : string -> error;
  (** the TOML decoder applied to the file at [path] *)
  Decode : string -> FileConfig * error;
  (** the verb [%q] applied to a string *)
  Quote : string -> string;
  (** the text of [err.Error()] *)
  Error_text : error -> string
}.

(** [os.Getenv]: the value of the variable, empty when it is not set. *)
Definition Getenv (sys : System) (key : string) : string :=
  match LookupEnv sys key with
  | Some value => value
  | None => EmptyString
  end.

Definition nonempty (s : string) : bool := negb (String.eqb s "").

Definition checkFile (sys : System) (path : string) : bool :=
  negb (NotExist sys path).

(** [getCfgPath] finds the config file path. *)
Definition getCfgPath (sys : System) : string * error :=
  let filePath :=
    Join sys [Getenv sys "XDG_CONFIG_HOME"; "github-actions"%string] in
  if negb (is_None (LookupEnv sys "XDG_CONFIG_HOME"))
     && checkFile sys filePath
  then (filePath, nil_error)
  else
    let '(homeDir, err) := UserHomeDir sys in
    if negb (is_nil err) then
      (EmptyString,
       other_error
         (String.append "retrieving home directory info: "
                        (Error_text sys err)) None None)
    else
      let cfgPath :=
        Join sys [homeDir; "cfg"%string; "github-actions"%string] in
      if checkFile sys cfgPath then (cfgPath, nil_error)
      else
        let localPath := Join sys [homeDir; ".github-actions"%string] in
        if checkFile sys localPath then (localPath, nil_error)
        else (EmptyString, nil_error).

Definition dq : string := String "034"%char EmptyString.
Definition lf : string := String "010"%char EmptyString.

(** [tokenNotFoundMessage]. *)
Definition tokenNotFoundMessage (sys : System) (host : string) : string :=
  String.concat EmptyString
    ["Couldn't find a GitHub token for host "; Quote sys host; "."; lf;
     lf;
     "Set the GH_TOKEN or GITHUB_TOKEN environment variable, or add a configuration file:";
     lf; lf;
     "$XDG_CONFIG_HOME/github-actions or $HOME/cfg/github-actions or $HOME/.github-actions";
     lf; lf;
     "default = "; dq; "github.com"; dq; lf;
     lf;
     "[hosts]"; lf;
     lf;
     "[hosts."; dq; "github.com"; dq; "]"; lf;
     "token = "; dq; "ghp_xxxx"; dq; lf;
     lf;
     "Go to https://github.com/settings/tokens to create a token."; lf]%string.

(** The lookup [if h, ok := cfg.Hosts[key]; ok && h.Token != ""]. *)
Definition host_token (cfg : FileConfig) (key : string) : option string :=
  match Hosts cfg key with
  | Some h => if nonempty (Token h) then Some (Token h) else None
  | None => None
  end.

(** [GetToken] retrieves a GitHub token for the given host. *)
Definition GetToken (sys : System) (host : string) : string * error :=
  if nonempty (Getenv sys "GH_TOKEN") then (Getenv sys "GH_TOKEN", nil_error)
  else if nonempty (Getenv sys "GITHUB_TOKEN")
  then (Getenv sys "GITHUB_TOKEN", nil_error)
  else
    let '(cfgPath, err) := getCfgPath sys in
    if negb (is_nil err) then (EmptyString, err)
    else if String.eqb cfgPath "" then
      (EmptyString, errors_New (tokenNotFoundMessage sys host))
    else if negb (is_nil (Open sys cfgPath)) then
      (EmptyString, Open sys cfgPath)
    else
      let '(cfg, err) := Decode sys cfgPath in
      if negb (is_nil err) then (EmptyString, err)
      else
        match host_token cfg host with
        | Some token => (token, nil_error)
        | None =>
            match (if nonempty (Default cfg)
                   then host_token cfg (Default cfg) else None) with
            | Some token => (token, nil_error)
            | None =>
                match host_token cfg "github.com" with
                | Some token => (token, nil_error)
                | None =>
                    (EmptyString,
                     errors_New (tokenNotFoundMessage sys host))
                end
            end
        end.

End config.

(** ** package main: the command [open] *)

Module open_cmd.

Import time io lib main.
Local Open Scope io_scope.

(** How one pass through the [for] loop of [doOpen] ends. *)
Inductive step : Type :=
| Again
| Finish (o : outcome).

(** [select] between [ctx.Done()] and [time.After(timer)]. *)
Definition pause (w : World) (timer : Duration) : M step :=
  done <- call (ev_select timer) (Done w) ;;
  match done with
  | Some ctx_Err => ret (Finish (Returns ctx_Err))
  | None => ret Again
  end.

(** One pass through the [for] loop of [doOpen].  [openURL] gives the
    error of [openURL(url)], the last thing [doOpen] does. *)
Definition pass (w : World) (openURL : history -> string -> error)
           (remote : RemoteURL) (tip : string) : M step :=
  let owner := Path remote in
  let repo := RepoName remote in
  '(runs, err) <- call (ev_FindWorkflowRunsForCommit owner repo tip)
                       (fun h => FindWorkflowRunsForCommit w h owner repo tip) ;;
  if negb (is_nil err) then
    if isHttpError err then
      emit (ev_Printf "Caught network error: %s. Continuing\n"
                      [arg_s (Error w err)]) ;;;
      pause w (2 * Second)
    else ret (Finish (Returns err))
  else
    match runs with
    | [] =>
        if (String.length tip <? 8)%nat then ret (Finish Panics)
        else
          emit (ev_Printf "No workflow runs found for %s yet, waiting...\n"
                          [arg_s (substring 0 8 tip)]) ;;;
          pause w (5 * Second)
    | run :: _ =>
        fun h => (Finish (Returns (openURL h (WorkflowRun.HTMLURL run))), h)
    end.

(** The [for] loop, cut off after [fuel] passes. *)
Fixpoint passes (fuel : nat) (w : World)
         (openURL : history -> string -> error) (remote : RemoteURL)
         (tip : string) : M (option outcome) :=
  match fuel with
  | O => ret None
  | S fuel' =>
      s <- pass w openURL remote tip ;;
      match s with
      | Finish o => ret (Some o)
      | Again => passes fuel' w openURL remote tip
      end
  end.

(** [doOpen]; [None] when the loop is still running after [fuel]
    passes. *)
Definition doOpen (fuel : nat) (w : World)
           (openURL : history -> string -> error) (remote : RemoteURL)
           (branch : string) : M (option outcome) :=
  '(tip, err) <- call (ev_Tip branch) (fun h => Tip w h branch) ;;
  if negb (is_nil err) then ret (Some (Returns err))
  else passes fuel w openURL remote tip.

End open_cmd.

(** ** More worlds for the examples *)

Module more.

Import time io lib.
Local Open Scope string_scope.

Definition log : bytes :=
  B "compile" ++ [nl] ++ B "test" ++ [nl] ++ B "FAIL" ++ [nl].

(** The job "test" failed and its log is fetched. *)
Definition log_fetched : World :=
  mkWorld (fun _ => 1000 * Second)
          (fun _ => false)
          (fun _ _ => (scenario.sha, nil_error))
          (fun _ _ _ _ => ([scenario.failed_run], nil_error))
          (fun _ _ _ _ =>
             (JobsResponse.mk 1 [summary.job "test" "failure"], nil_error))
          (fun _ _ _ _ => (log, nil_error))
          (fun _ => None)
          (fun _ => "network error").

Definition running_run : WorkflowRun.t :=
  duration.run "in_progress" None (Some 0) 0.

Definition skipped_run : WorkflowRun.t :=
  duration.run "completed" (Some "skipped") (Some 0) (60 * Second).

(** Every poll finds the run still in progress; nobody cancels. *)
Definition never_done : World :=
  mkWorld (fun _ => 1000 * Second)
          (fun _ => false)
          (fun _ _ => (scenario.sha, nil_error))
          (fun _ _ _ _ => ([running_run], nil_error))
          (fun _ _ _ _ => (JobsResponse.mk 0 [], nil_error))
          (fun _ _ _ _ => ([], nil_error))
          (fun _ => None)
          (fun _ => "network error").

(** The first poll finds one run that was skipped. *)
Definition build_skipped : World :=
  mkWorld (fun _ => 1000 * Second)
          (fun _ => false)
          (fun _ _ => (scenario.sha, nil_error))
          (fun _ _ _ _ => ([skipped_run], nil_error))
          (fun _ _ _ _ => (JobsResponse.mk 0 [], nil_error))
          (fun _ _ _ _ => ([], nil_error))
          (fun _ => None)
          (fun _ => "network error").

(** The API refuses the token. *)
Definition unauthorized : error := other_error "Bad credentials" None None.

Definition poll_refused : World :=
  mkWorld (fun _ => 1000 * Second)
          (fun _ => false)
          (fun _ _ => (scenario.sha, nil_error))
          (fun _ _ _ _ => ([], unauthorized))
          (fun _ _ _ _ => (JobsResponse.mk 0 [], nil_error))
          (fun _ _ _ _ => ([], nil_error))
          (fun _ => None)
          (fun _ => "network error").

(** The network is down and the context is cancelled. *)
Definition cancelled : World :=
  mkWorld (fun _ => 1000 * Second)
          (fun _ => false)
          (fun _ _ => (scenario.sha, nil_error))
          (fun _ _ _ _ => ([], net_DNSError "no such host" "api.github.com"
                                            false false))
          (fun _ _ _ _ => (JobsResponse.mk 0 [], nil_error))
          (fun _ _ _ _ => ([], nil_error))
          (fun _ => Some (other_error "context canceled" None None))
          (fun _ => "network error").

(** A repository whose commit identifiers are abbreviated to 6 bytes,
    before any run exists. *)
Definition short_tip : World :=
  mkWorld (fun _ => 1000 * Second)
          (fun _ => false)
          (fun _ _ => ("3f2a9c", nil_error))
          (fun _ _ _ _ => ([], nil_error))
          (fun _ _ _ _ => (JobsResponse.mk 0 [], nil_error))
          (fun _ _ _ _ => ([], nil_error))
          (fun _ => None)
          (fun _ => "network error").

(** The branch does not exist. *)
Definition unknown_revision : error :=
  other_error "fatal: ambiguous argument: unknown revision" None None.

Definition no_branch : World :=
  mkWorld (fun _ => 1000 * Second)
          (fun _ => false)
          (fun _ _ => ("", unknown_revision))
          (fun _ _ _ _ => ([], nil_error))
          (fun _ _ _ _ => (JobsResponse.mk 0 [], nil_error))
          (fun _ _ _ _ => ([], nil_error))
          (fun _ => None)
          (fun _ => "network error").

(** The history of [doWait] on the branch main when it sends its first
    poll. *)
Definition first_poll : history :=
  [ev_Tip "main";
   ev_Println [arg_s "Waiting for GitHub Actions on"; arg_s "main";
               arg_s "to complete"];
   ev_Now].

End more.

(** *** Passes that wait *)

Module waiting.

Import time io lib main.

(** The poll sent after the history [h] makes [doWait] wait and poll
    again: it fails with a retryable error, finds no run (with a commit
    identifier of at least 8 bytes), or finds a run that has not
    completed. *)
Definition waits (w : World) (remote : RemoteURL) (tip : string)
           (h : history) : Prop :=
  let '(runs, err) :=
    FindWorkflowRunsForCommit w h (Path remote) (RepoName remote) tip in
  (err <> nil_error /\ isHttpError err = true) \/
  (err = nil_error /\ runs = [] /\ (8 <= String.length tip)%nat) \/
  (err = nil_error /\ runs <> [] /\
   forallb WorkflowRun.IsCompleted runs = false).

(** What a call of [doWait] that ended with [o] (or is still running,
    for [None]) may have requested after its polls: nothing; or, having
    returned nil, the jobs of each run of a list; or, having returned the
    error of a failed build, the jobs of one run and then at most the log
    of one job. *)
Definition reported (remote : RemoteURL) (branch : string)
           (o : option outcome) (rest : history) : Prop :=
  match o with
  | Some (Returns err) =>
      rest = [] \/
      (err = nil_error /\
       exists runs,
         rest = map (fun run =>
                       ev_ListJobs (Path remote) (RepoName remote)
                                   (WorkflowRun.ID run)) runs) \/
      (err = errors_New ("Build on " ++ branch ++ " failed!")%string /\
       exists run rest',
         rest = ev_ListJobs (Path remote) (RepoName remote)
                            (WorkflowRun.ID run) :: rest' /\
         (rest' = [] \/
          exists job,
            rest' = [ev_GetJobLogs (Path remote) (RepoName remote)
                                   (Job.ID job)]))
  | _ => rest = []
  end.

End waiting.

(** *** Sessions of the command [open] *)

Module opening.

Import time io lib main open_cmd.

(** [at_pass w openURL remote branch k tip h]: a call of [doOpen] started
    with an empty history is about to send its poll number [k] (counted
    from 0), with the commit identifier and the history given. *)
Inductive at_pass (w : World) (openURL : history -> string -> error)
          (remote : RemoteURL) (branch : string)
  : nat -> string -> history -> Prop :=
| at_first_pass tip :
    Tip w [] branch = (tip, nil_error) ->
    at_pass w openURL remote branch 0 tip [ev_Tip branch]
| at_next_pass k tip h h' :
    at_pass w openURL remote branch k tip h ->
    pass w openURL remote tip h = (Again, h') ->
    at_pass w openURL remote branch (S k) tip h'.

(** A browser that always starts. *)
Definition browser : history -> string -> error := fun _ _ => nil_error.

End opening.

(** *** A machine with a configuration file *)

Module machine.

Import config.
Local Open Scope string_scope.

(** The file names the enterprise host as default and holds an empty
    token for github.com. *)
Definition file : FileConfig :=
  mkFileConfig "ghe.example.com"
    (fun key =>
       if String.eqb key "ghe.example.com" then Some (mkHost "ghp_default")
       else if String.eqb key "github.com" then Some (mkHost "")
       else None).

(** [GH_TOKEN] is set but empty; the file is at [$HOME/.github-actions]. *)
Definition laptop : System :=
  mkSystem (fun key => if String.eqb key "GH_TOKEN" then Some "" else None)
           ("/home/dev", nil_error)
           (fun path => negb (String.eqb path "/home/dev/.github-actions"))
           (String.concat "/")
           (fun _ => nil_error)
           (fun _ => (file, nil_error))
           (fun s => dq ++ s ++ dq)
           (fun _ => "operation failed").

(** The same machine in a shell that exports [GITHUB_TOKEN]. *)
Definition ci_shell : System :=
  mkSystem (fun key =>
              if String.eqb key "GITHUB_TOKEN" then Some "ghs_ci" else None)
           ("", errors_New "$HOME is not defined")
           (fun _ => true)
           (String.concat "/")
           (fun _ => errors_New "no such file")
           (fun _ => (mkFileConfig "" (fun _ => None), nil_error))
           (fun s => dq ++ s ++ dq)
           (fun _ => "operation failed").

(** A checkout on the same machine whose shell exports [GITHUB_TOKEN]
    and an empty [GH_TOKEN]. *)
Definition ci_checkout : System :=
  mkSystem (fun key =>
              if String.eqb key "GITHUB_TOKEN" then Some "ghs_ci"
              else if String.eqb key "GH_TOKEN" then Some ""
              else None)
           ("/home/dev", nil_error)
           (fun path => negb (String.eqb path "/home/dev/.github-actions"))
           (String.concat "/")
           (fun _ => nil_error)
           (fun _ => (file, nil_error))
           (fun s => dq ++ s ++ dq)
           (fun _ => "operation failed").

End machine.

(** ** The tests of the repository, run on the embedding *)

Definition log3 : bytes :=
  B "line1" ++ [nl] ++ B "line2" ++ [nl] ++ B "line3" ++ [nl].

(** [TestFindBuildFailure]. *)
Example TestFindBuildFailure :
  lib.findBuildFailure [] 10 = Some [] /\
  lib.findBuildFailure (B "line1" ++ [nl] ++ B "line2" ++ [nl]) 10
  = Some (B "line1" ++ [nl] ++ B "line2" ++ [nl]) /\
  lib.findBuildFailure log3 3 = Some log3 /\
  lib.findBuildFailure log3 2 = Some (B "line2" ++ [nl] ++ B "line3" ++ [nl]) /\
  lib.findBuildFailure log3 1 = Some (B "line3" ++ [nl]) /\
  lib.findBuildFailure
    (B "a" ++ [nl] ++ B "b" ++ [nl] ++ B "c" ++ [nl] ++ B "d" ++ [nl]
       ++ B "e" ++ [nl]) 3
  = Some (B "c" ++ [nl] ++ B "d" ++ [nl] ++ B "e" ++ [nl]).
Proof. repeat split. Qed.

(** [TestShouldPrint], with the clock standing still between the reading
    of the test and the reading of [shouldPrint]. *)
Example TestShouldPrint :
  let since d := main.shouldPrint 0 (time.Add 0 (- d)) in
  since (5 * time.Second) (30 * time.Second) = false /\
  since (11 * time.Second) (30 * time.Second) = true /\
  since (10 * time.Second) (2 * time.Minute) = false /\
  since (16 * time.Second) (2 * time.Minute) = true /\
  since (15 * time.Second) (4 * time.Minute) = false /\
  since (21 * time.Second) (4 * time.Minute) = true /\
  since (25 * time.Second) (6 * time.Minute) = false /\
  since (31 * time.Second) (6 * time.Minute) = true /\
  since time.Minute (10 * time.Minute) = false /\
  since (2 * time.Minute + time.Second) (10 * time.Minute) = true /\
  since (2 * time.Minute) (30 * time.Minute) = false /\
  since (3 * time.Minute + time.Second) (30 * time.Minute) = true.
Proof. repeat split. Qed.

(** [TestIsHttpError]. *)
Example TestIsHttpError :
  main.isHttpError nil_error = false /\
  main.isHttpError (net_UnknownNetworkError "foo") = false /\
  main.isHttpError (net_DNSError "no such host" "example.com" false false)
  = true /\
  main.isHttpError (net_OpError "dial" "tcp" (net_DNSError "" "" false false))
  = true /\
  main.isHttpError (net_OpError "read" "tcp" (net_DNSError "" "" false false))
  = false /\
  main.isHttpError
    (url_Error "Get" "https://example.com" (net_DNSError "" "" false false))
  = true /\
  main.isHttpError
    (url_Error "Get" "https://example.com" (net_UnknownNetworkError "foo"))
  = false.
Proof. repeat split. Qed.

(** [TestWorkflowRunIsCompleted], [TestWorkflowRunIsSuccess],
    [TestWorkflowRunIsFailed] and [TestWorkflowRunDuration]. *)
Example TestWorkflowRun :
  lib.WorkflowRun.IsCompleted (duration.unstarted "completed" None) = true /\
  lib.WorkflowRun.IsCompleted (duration.unstarted "in_progress" None) = false /\
  lib.WorkflowRun.IsCompleted (duration.unstarted "queued" None) = false /\
  lib.WorkflowRun.IsSuccess (duration.unstarted "completed" (Some "success"%string))
  = true /\
  lib.WorkflowRun.IsSuccess (duration.unstarted "completed" (Some "failure"%string))
  = false /\
  lib.WorkflowRun.IsSuccess (duration.unstarted "completed" None) = false /\
  lib.WorkflowRun.IsSuccess (duration.unstarted "in_progress" None) = false /\
  lib.WorkflowRun.IsFailed (duration.unstarted "completed" (Some "failure"%string))
  = true /\
  lib.WorkflowRun.IsFailed (duration.unstarted "completed" (Some "cancelled"%string))
  = true /\
  lib.WorkflowRun.IsFailed (duration.unstarted "completed" (Some "timed_out"%string))
  = true /\
  lib.WorkflowRun.IsFailed (duration.unstarted "completed" (Some "success"%string))
  = false /\
  lib.WorkflowRun.IsFailed (duration.unstarted "completed" (Some "skipped"%string))
  = false /\
  lib.WorkflowRun.IsFailed (duration.unstarted "completed" None) = false /\
  lib.WorkflowRun.IsFailed (duration.unstarted "in_progress" None) = false /\
  lib.WorkflowRun.Duration (300 * time.Second)
    (duration.run "completed" None None (300 * time.Second)) = 0 /\
  lib.WorkflowRun.Duration (300 * time.Second)
    (duration.run "completed" None (Some 0) (300 * time.Second))
  = 5 * time.Minute.
Proof. repeat split. Qed.

(** ** The standard library functions on known values *)

Example String_samples :
  time.String (90 * time.Second) = B "1m30s" /\
  time.String (1500 * time.Millisecond) = B "1.5s" /\
  time.String (250 * time.Millisecond) = B "250ms" /\
  time.String 0 = B "0s" /\
  time.String (- (2 * time.Hour + 5)) = B "-2h0m0.000000005s" /\
  time.String 1500 = B "1.5" ++ xc2 :: xb5 :: B "s" /\
  time.String time.minDuration = B "-2562047h47m16.854775808s".
Proof. repeat split. Qed.

Example Round_samples :
  time.Round (1499 * time.Millisecond) time.Second = time.Second /\
  time.Round (1500 * time.Millisecond) time.Second = 2 * time.Second /\
  time.Round (- (1500 * time.Millisecond)) time.Second = - (2 * time.Second) /\
  time.Round (- (499 * time.Millisecond)) time.Second = 0 /\
  time.Round time.maxDuration time.Second = time.maxDuration /\
  time.Round 5 0 = 5.
Proof. repeat split. Qed.

Example RuneCount_samples :
  utf8.RuneCount (B "abc") = 3 /\
  utf8.RuneCount [xc2; xb5; x73] = 2 /\
  utf8.RuneCount [xe2; x82; xac] = 1 /\
  utf8.RuneCount [xe2; x82] = 2 /\
  utf8.RuneCount [xff; x61; xff] = 3 /\
  utf8.RuneCount [xf0; x9f; x98; x80] = 1.
Proof. repeat split. Qed.

Example tabwriter_two_columns :
  tabwriter.output
    (tabwriter.Flush
       (tabwriter.Write (tabwriter.NewWriter [nl])
          (B "a" ++ [tab] ++ B "b" ++ [nl] ++ B "ccc" ++ [tab] ++ B "d" ++ [nl])))
  = [nl] ++ B "a   b" ++ [nl] ++ B "ccc d" ++ [nl].
Proof. reflexivity. Qed.

Example tabwriter_blocks :
  tabwriter.output
    (tabwriter.Flush
       (tabwriter.Write (tabwriter.NewWriter [])
          (B "a" ++ [tab] ++ B "b" ++ [tab] ++ B "c" ++ [nl] ++
           B "aa" ++ [tab] ++ B "bbb" ++ [tab] ++ B "c" ++ [nl] ++
           B "x" ++ [nl] ++
           B "aaaa" ++ [tab] ++ B "b" ++ [nl] ++ B "tail")))
  = B "a  b   c" ++ [nl] ++ B "aa bbb c" ++ [nl] ++ B "x" ++ [nl] ++
    B "aaaa b" ++ [nl] ++ B "tail".
Proof. reflexivity. Qed.

Example buildJobsSummary_plain :
  fst (lib.buildJobsSummary false
         [summary.job_lasting "build" "success" (90 * time.Second);
          summary.job_lasting "t" "failure" (5200 * time.Millisecond)])
  = [nl] ++ B "build 1m30s" ++ [nl] ++ B "t     5.2s" ++ [nl].
Proof. reflexivity. Qed.

Example buildJobsSummary_tty :
  fst (lib.buildJobsSummary true
         [summary.job_lasting "build" "success" (90 * time.Second);
          summary.job_lasting "t" "failure" (5200 * time.Millisecond)])
  = [nl] ++ B "build 1m30s" ++ [nl] ++ B "t     " ++ lib.color_on
    ++ B "5.2s    " ++ lib.color_off ++ [nl].
Proof. reflexivity. Qed.

(** * Properties *)

(** ** The log tail extractor *)

Section TailLemmas.

Import tail.

Lemma len_nonneg {A : Type} (s : list A) : 0 <= len s.
Proof. unfold len. lia. Qed.

Lemma len_app {A : Type} (s t : list A) : len (s ++ t) = len s + len t.
Proof. unfold len. rewrite length_app. lia. Qed.

Lemma len_cons {A : Type} (a : A) (s : list A) : len (a :: s) = 1 + len s.
Proof. unfold len. cbn [List.length]. lia. Qed.

Lemma LastIndexByte_lower (s : bytes) (c : byte) : -1 <= LastIndexByte s c.
Proof.
  induction s as [|b s IH]; cbn [LastIndexByte]; [lia|].
  destruct (LastIndexByte s c =? -1) eqn:E.
  - destruct (Byte.eqb b c); lia.
  - lia.
Qed.

Lemma LastIndexByte_absent (s : bytes) (c : byte) :
  LastIndexByte s c = -1 -> ~ In c s.
Proof.
  induction s as [|b s IH]; cbn [LastIndexByte]; intros H; [tauto|].
  pose proof (LastIndexByte_lower s c) as Hlo.
  destruct (LastIndexByte s c =? -1) eqn:E.
  - apply Z.eqb_eq in E.
    destruct (Byte.eqb b c) eqn:Eb; [lia|].
    apply Byte.eqb_false in Eb.
    intros [Hin|Hin]; [congruence | exact (IH E Hin)].
  - apply Z.eqb_neq in E. lia.
Qed.

Lemma LastIndexByte_found (s : bytes) (c : byte) :
  LastIndexByte s c <> -1 ->
  exists front back,
    s = front ++ c :: back /\ len front = LastIndexByte s c /\ ~ In c back.
Proof.
  induction s as [|b s IH]; cbn [LastIndexByte]; intros H; [lia|].
  destruct (LastIndexByte s c =? -1) eqn:E.
  - apply Z.eqb_eq in E.
    destruct (Byte.eqb b c) eqn:Eb; [|lia].
    apply Byte.byte_dec_bl in Eb. subst b.
    exists [], s. repeat split. now apply LastIndexByte_absent.
  - apply Z.eqb_neq in E.
    destruct (IH E) as (front & back & Hs & Hlen & Hback).
    exists (b :: front), back. repeat split.
    + cbn. now rewrite <- Hs.
    + rewrite len_cons. lia.
    + exact Hback.
Qed.

Lemma lines_nonempty (s : bytes) : s <> [] -> lines s <> [].
Proof.
  destruct s as [|b s]; [congruence|]. intros _. cbn [lines].
  destruct (Byte.eqb b nl); [discriminate|].
  destruct (lines s); discriminate.
Qed.

Lemma concat_lines (s : bytes) : List.concat (lines s) = s.
Proof.
  induction s as [|b s IH]; [reflexivity|]. cbn [lines].
  destruct (Byte.eqb b nl).
  - cbn. now rewrite IH.
  - destruct (lines s) as [|l ls] eqn:E.
    + cbn in *. now rewrite <- IH.
    + cbn in *. now rewrite <- IH.
Qed.

(** A piece without newline followed by one more byte is one line. *)
Lemma lines_single (piece : bytes) (c : byte) :
  ~ In nl piece -> lines (piece ++ [c]) = [piece ++ [c]].
Proof.
  induction piece as [|b piece IH]; intros Hnl.
  - cbn. now destruct (Byte.eqb c nl).
  - cbn [app lines].
    destruct (Byte.eqb b nl) eqn:Eb.
    + apply Byte.byte_dec_bl in Eb. subst b. exfalso. apply Hnl. now left.
    + rewrite IH; [reflexivity|]. intros Hin. apply Hnl. now right.
Qed.

(** The lines of a buffer split at any newline. *)
Lemma lines_app_newline (front back : bytes) :
  lines (front ++ nl :: back) = lines (front ++ [nl]) ++ lines back.
Proof.
  induction front as [|b front IH].
  - reflexivity.
  - cbn [app lines]. destruct (Byte.eqb b nl).
    + now rewrite IH.
    + rewrite IH.
      destruct (lines (front ++ [nl])) as [|l ls] eqn:E; [|reflexivity].
      exfalso. revert E. apply lines_nonempty. now destruct front.
Qed.

Lemma last_n_snoc {A : Type} (n : nat) (l : list A) (x : A) :
  last_n (S n) (l ++ [x]) = last_n n l ++ [x].
Proof.
  unfold last_n. rewrite length_app. cbn [List.length].
  replace (List.length l + 1 - S n)%nat with (List.length l - n)%nat by lia.
  rewrite skipn_app.
  replace (List.length l - n - List.length l)%nat with 0%nat by lia.
  reflexivity.
Qed.

Lemma last_n_all {A : Type} (n : nat) (l : list A) :
  (List.length l <= n)%nat -> last_n n l = l.
Proof.
  intros H. unfold last_n.
  replace (List.length l - n)%nat with 0%nat by lia. reflexivity.
Qed.

Lemma slice_to_removelast (front : bytes) (c : byte) (back : bytes) :
  slice_to ((front ++ [c]) ++ back) (len (front ++ [c]) - 1) = Some front.
Proof.
  unfold slice_to. rewrite !len_app, len_cons.
  pose proof (len_nonneg front). pose proof (len_nonneg back).
  change (len (@nil byte)) with 0.
  replace (len front + (1 + 0) - 1) with (len front) by lia.
  destruct (0 <=? len front) eqn:E1; [|apply Z.leb_gt in E1; lia].
  destruct (len front <=? len front + (1 + 0) + len back) eqn:E2;
    [|apply Z.leb_gt in E2; lia].
  cbn [andb]. f_equal. unfold len. rewrite Nat2Z.id.
  rewrite <- app_assoc. rewrite firstn_app.
  rewrite firstn_all, Nat.sub_diag. cbn. now rewrite app_nil_r.
Qed.

Lemma slice_from_app (front back : bytes) :
  slice_from (front ++ back) (len front) = Some back.
Proof.
  unfold slice_from. rewrite len_app.
  pose proof (len_nonneg front). pose proof (len_nonneg back).
  destruct (0 <=? len front) eqn:E1; [|apply Z.leb_gt in E1; lia].
  destruct (len front <=? len front + len back) eqn:E2;
    [|apply Z.leb_gt in E2; lia].
  cbn [andb]. f_equal. unfold len. rewrite Nat2Z.id.
  rewrite skipn_app, skipn_all, Nat.sub_diag. reflexivity.
Qed.

(** The loop entered at the end of a non-empty prefix [front] of the log:
    it returns the whole log when [front] has at most [remaining] lines,
    and otherwise the last [remaining] lines of [front] followed by the
    rest of the log. *)
Lemma loop_lines (remaining : nat) :
  forall front back : bytes,
    front <> [] ->
    lib.loop (front ++ back) remaining (len front)
    = Some (if (List.length (lines front) <=? remaining)%nat
            then front ++ back
            else List.concat (last_n remaining (lines front)) ++ back).
Proof.
  induction remaining as [|remaining IH]; intros front back Hne.
  - cbn [lib.loop]. rewrite slice_from_app.
    pose proof (lines_nonempty front Hne) as Hl.
    destruct (lines front) as [|l ls] eqn:E; [congruence|].
    cbn [List.length Nat.leb]. unfold last_n.
    rewrite Nat.sub_0_r, skipn_all. reflexivity.
  - destruct (exists_last Hne) as (prefix & c & ->).
    cbn [lib.loop]. unfold lib.loop_body.
    rewrite slice_to_removelast.
    destruct (LastIndexByte prefix nl =? -1) eqn:E.
    + apply Z.eqb_eq in E. apply LastIndexByte_absent in E.
      rewrite (lines_single prefix c E). reflexivity.
    + apply Z.eqb_neq in E.
      destruct (LastIndexByte_found prefix nl E) as (a & b & -> & Hlen & Hb).
      rewrite <- Hlen.
      replace (len a + 1) with (len (a ++ [nl]))
        by (rewrite len_app, len_cons; reflexivity).
      replace (((a ++ nl :: b) ++ [c]) ++ back)
        with ((a ++ [nl]) ++ (b ++ [c]) ++ back)
        by (rewrite <- !app_assoc; reflexivity).
      rewrite IH by (now destruct a).
      replace ((a ++ nl :: b) ++ [c]) with (a ++ nl :: (b ++ [c]))
        by (rewrite <- app_assoc; reflexivity).
      rewrite (lines_app_newline a (b ++ [c])), (lines_single b c Hb).
      rewrite length_app. cbn [List.length].
      rewrite last_n_snoc, concat_app. cbn [List.concat].
      rewrite app_nil_r.
      replace (List.length (lines (a ++ [nl])) + 1 <=? S remaining)%nat
        with (List.length (lines (a ++ [nl])) <=? remaining)%nat.
      2:{ destruct (Nat.leb_spec (List.length (lines (a ++ [nl]))) remaining);
          symmetry; [apply Nat.leb_le | apply Nat.leb_gt]; lia. }
      destruct (List.length (lines (a ++ [nl])) <=? remaining)%nat;
        f_equal; rewrite <- ?app_assoc; reflexivity.
Qed.

(** [findBuildFailure] in terms of the lines of the log. *)
Lemma findBuildFailure_lines (log : bytes) (n : Z) :
  lib.findBuildFailure log n
  = Some (if (List.length (lines log) <=? Z.to_nat n)%nat
          then log
          else List.concat (last_n (Z.to_nat n) (lines log))).
Proof.
  unfold lib.findBuildFailure.
  destruct log as [|b log].
  - reflexivity.
  - destruct (len (b :: log) =? 0) eqn:E.
    + apply Z.eqb_eq in E. rewrite len_cons in E.
      pose proof (len_nonneg log). lia.
    + pose proof (loop_lines (Z.to_nat n) (b :: log) []) as H.
      rewrite !app_nil_r in H. apply H. discriminate.
Qed.

End TailLemmas.

Section TailTheorems.

Import tail.

Lemma terminated_cons (b : byte) (l : bytes) :
  terminated l = true -> terminated (b :: l) = true.
Proof.
  unfold terminated. cbn [rev].
  destruct (rev l) as [|x xs]; [discriminate|]. cbn. tauto.
Qed.

Lemma lines_all_terminated (front : bytes) :
  Forall (fun l => terminated l = true) (lines (front ++ [nl])).
Proof.
  induction front as [|b front IH].
  - cbn. repeat constructor.
  - cbn [app lines]. destruct (Byte.eqb b nl) eqn:Eb.
    + constructor; [|exact IH].
      apply Byte.byte_dec_bl in Eb. now subst b.
    + destruct (lines (front ++ [nl])) as [|l ls] eqn:E.
      * exfalso. revert E. apply lines_nonempty. now destruct front.
      * inversion IH as [|? ? Hl Hls]; subst.
        constructor; [now apply terminated_cons | exact Hls].
Qed.

Lemma filter_all {A : Type} (f : A -> bool) (l : list A) :
  Forall (fun x => f x = true) l -> filter f l = l.
Proof.
  induction 1 as [|x l Hx _ IH]; [reflexivity|].
  cbn. now rewrite Hx, IH.
Qed.

Lemma terminated_lines_all (log : bytes) :
  log = [] \/ ends_with_newline log -> terminated_lines log = lines log.
Proof.
  intros [->|[front ->]]; [reflexivity|].
  apply filter_all, lines_all_terminated.
Qed.

(** Behind its first line a buffer holds its other lines, and a line that
    is followed by another ends in a newline. *)
Lemma lines_cons_inv (s : bytes) :
  forall l ls,
    lines s = l :: ls ->
    lines (List.concat ls) = ls /\ (ls <> [] -> exists a, l = a ++ [nl]).
Proof.
  induction s as [|b s IH]; intros l ls; [discriminate|].
  cbn [lines]. destruct (Byte.eqb b nl) eqn:Eb.
  - intros [= <- <-]. rewrite concat_lines. split; [reflexivity|].
    apply Byte.byte_dec_bl in Eb. subst b. intros _. now exists [].
  - destruct (lines s) as [|l' ls'] eqn:E.
    + intros [= <- <-]. split; [reflexivity|congruence].
    + intros [= <- <-]. destruct (IH l' ls' eq_refl) as [Hls Hl].
      split; [exact Hls|]. intros Hne. destruct (Hl Hne) as [a ->].
      now exists (b :: a).
Qed.

Lemma lines_skipn (k : nat) :
  forall s : bytes,
    lines (List.concat (skipn k (lines s))) = skipn k (lines s).
Proof.
  induction k as [|k IH]; intros s.
  - cbn [skipn]. now rewrite concat_lines.
  - destruct (lines s) as [|l ls] eqn:E; [reflexivity|].
    cbn [skipn]. destruct (lines_cons_inv s l ls E) as [Hls _].
    rewrite <- Hls at 1 2. apply IH.
Qed.

Lemma lines_firstn_newline (k : nat) :
  forall s : bytes,
    (0 < k < List.length (lines s))%nat ->
    exists a, List.concat (firstn k (lines s)) = a ++ [nl].
Proof.
  induction k as [|k IH]; intros s Hk; [lia|].
  destruct (lines s) as [|l ls] eqn:E; [cbn in Hk; lia|].
  cbn [List.length] in Hk. cbn [firstn List.concat].
  destruct (lines_cons_inv s l ls E) as [Hls Hl].
  destruct k as [|k'].
  - cbn [firstn List.concat]. rewrite app_nil_r.
    apply Hl. destruct ls; [cbn in Hk; lia|discriminate].
  - destruct (IH (List.concat ls)) as [a Ha]; [rewrite Hls; lia|].
    rewrite Hls in Ha. rewrite Ha. exists (l ++ a). now rewrite app_assoc.
Qed.

Lemma last_n_suffix (n : nat) (log : bytes) :
  is_suffix (List.concat (last_n n (lines log))) log.
Proof.
  exists (List.concat (firstn (List.length (lines log) - n) (lines log))).
  unfold last_n. rewrite <- concat_app, firstn_skipn.
  symmetry. apply concat_lines.
Qed.

(** C1, as amended.  For every buffer and every [n >= 0],
    [findBuildFailure] returns a suffix of the buffer: the whole buffer
    when it has at most [n] lines, otherwise exactly its last [n] lines,
    that is everything behind the newline that ends the line before them;
    here the bytes behind the last newline of the buffer count as a line of
    their own.  For a buffer that is empty or ends in a newline these lines
    are its newline-terminated lines. *)
Theorem findBuildFailure_last_lines (log : bytes) (n : Z) :
  0 <= n ->
  exists r,
    lib.findBuildFailure log n = Some r /\
    is_suffix r log /\
    len r <= len log /\
    (len (lines log) <= n -> r = log) /\
    (n < len (lines log) ->
     r = List.concat (last_n (Z.to_nat n) (lines log)) /\
     len (lines r) = n /\
     (0 < n -> exists front, log = front ++ nl :: r)) /\
    (log = [] \/ ends_with_newline log ->
     terminated_lines log = lines log).
Proof.
  intros Hn. rewrite findBuildFailure_lines.
  eexists. split; [reflexivity|].
  assert (Hlen : forall r, is_suffix r log -> len r <= len log).
  { intros r [p ->]. rewrite len_app. pose proof (len_nonneg p). lia. }
  destruct (Nat.leb_spec (List.length (lines log)) (Z.to_nat n)) as [H|H].
  - assert (Hs : is_suffix log log) by now exists [].
    split; [exact Hs|]. split; [now apply Hlen|]. unfold len.
    split; [reflexivity|]. split; [lia|]. apply terminated_lines_all.
  - split; [apply last_n_suffix|].
    split; [apply Hlen, last_n_suffix|]. unfold len.
    split; [lia|]. split; [|apply terminated_lines_all].
    intros _. split; [reflexivity|]. unfold last_n. split.
    + rewrite lines_skipn, length_skipn. lia.
    + intros Hpos.
      destruct (lines_firstn_newline
                  (List.length (lines log) - Z.to_nat n) log) as [a Ha];
        [lia|].
      exists a.
      rewrite <- (concat_lines log) at 1.
      rewrite <- (firstn_skipn (List.length (lines log) - Z.to_nat n)
                               (lines log)) at 1.
      rewrite concat_app, Ha, <- app_assoc. reflexivity.
Qed.

Lemma findBuildFailure_last_lines_witness :
  lib.findBuildFailure (B "a" ++ [nl] ++ B "b" ++ [nl] ++ B "c" ++ [nl]) 2
  = Some (B "b" ++ [nl] ++ B "c" ++ [nl]).
Proof.
  destruct (findBuildFailure_last_lines
              (B "a" ++ [nl] ++ B "b" ++ [nl] ++ B "c" ++ [nl]) 2)
    as (r & Hr & _ & _ & _ & Hlast & _); [lia|].
  rewrite Hr. f_equal.
  destruct Hlast as [-> _]; [vm_compute|]; reflexivity.
Defined.

(** C1 as the specification words it fails: the buffer "a\nb" holds one
    newline-terminated line, yet for [n = 1] the result is "b", not the
    whole buffer. *)
Lemma findBuildFailure_not_as_specified :
  lib.findBuildFailure (B "a" ++ [nl] ++ B "b") 1 = Some (B "b") /\
  terminated_lines (B "a" ++ [nl] ++ B "b") = [B "a" ++ [nl]] /\
  ~ as_specified.
Proof.
  split; [reflexivity|]. split; [reflexivity|].
  intros H.
  destruct (H (B "a" ++ [nl] ++ B "b") 1 ltac:(lia))
    as (r & Hr & _ & Hwhole & _).
  vm_compute in Hr. injection Hr as <-.
  assert (Hlog : [x62] = B "a" ++ [nl] ++ B "b").
  { apply Hwhole. right. vm_compute. discriminate. }
  vm_compute in Hlog. discriminate.
Qed.

Lemma LastIndexByte_upper (s : bytes) (c : byte) : LastIndexByte s c < len s.
Proof.
  induction s as [|b s IH]; cbn [LastIndexByte].
  - cbn. lia.
  - rewrite len_cons. pose proof (len_nonneg s).
    destruct (LastIndexByte s c =? -1); [destruct (Byte.eqb b c)|]; lia.
Qed.

Lemma slice_to_len {A : Type} (s t : list A) (hi : Z) :
  slice_to s hi = Some t -> len t = hi /\ 0 <= hi <= len s.
Proof.
  unfold slice_to.
  destruct (0 <=? hi) eqn:E1; [|discriminate].
  destruct (hi <=? len s) eqn:E2; [|discriminate].
  apply Z.leb_le in E1, E2. cbn [andb]. intros [= <-].
  split; [|lia]. unfold len in *. rewrite length_firstn.
  rewrite Nat.min_l by lia. lia.
Qed.

Lemma loop_body_next (log : bytes) (idx idx' : Z) :
  lib.loop_body log idx = lib.Next idx' -> 1 <= idx' < idx.
Proof.
  unfold lib.loop_body.
  destruct (slice_to log (idx - 1)) as [s|] eqn:Es; [|discriminate].
  apply slice_to_len in Es. destruct Es as [Hlen Hb].
  pose proof (LastIndexByte_lower s nl). pose proof (LastIndexByte_upper s nl).
  destruct (LastIndexByte s nl =? -1) eqn:E; [discriminate|].
  apply Z.eqb_neq in E. intros [= <-]. lia.
Qed.

Lemma reaches_bounds (log : bytes) (n count idx : Z) :
  reaches log n count idx ->
  1 <= idx <= len log /\ 0 <= count /\
  (count <= n ->
   lib.findBuildFailure log n = lib.loop log (Z.to_nat (n - count)) idx).
Proof.
  induction 1 as [Hne|count idx idx' Hr IH Hlt Hbody].
  - pose proof (len_nonneg log). split; [lia|]. split; [lia|].
    intros _. unfold lib.findBuildFailure.
    destruct (len log =? 0) eqn:E; [apply Z.eqb_eq in E; lia|].
    now rewrite Z.sub_0_r.
  - destruct IH as (Hidx & Hc & Hrun).
    apply loop_body_next in Hbody as Hb.
    split; [lia|]. split; [lia|]. intros _.
    rewrite Hrun by lia.
    replace (Z.to_nat (n - count)) with (S (Z.to_nat (n - (count + 1))))
      by lia.
    cbn [lib.loop]. now rewrite Hbody.
Qed.

(** C10.  For every buffer and every [n >= 0], [findBuildFailure] returns
    a result, and in every state its loop reaches the newline index lies
    in [1, len(log)], so that neither [log[:newlineIdx-1]] nor
    [log[newlineIdx:]] is out of bounds and no pass through the loop
    panics. *)
Theorem findBuildFailure_in_bounds (log : bytes) (n : Z) :
  0 <= n ->
  (exists r, lib.findBuildFailure log n = Some r) /\
  forall count newlineIdx,
    reaches log n count newlineIdx ->
    1 <= newlineIdx <= len log /\
    (exists s, slice_to log (newlineIdx - 1) = Some s) /\
    (exists s, slice_from log newlineIdx = Some s) /\
    lib.loop_body log newlineIdx <> lib.Panic /\
    (count <= n ->
     lib.findBuildFailure log n
     = lib.loop log (Z.to_nat (n - count)) newlineIdx).
Proof.
  intros Hn. split.
  - rewrite findBuildFailure_lines. eauto.
  - intros count idx Hr.
    destruct (reaches_bounds _ _ _ _ Hr) as (Hidx & Hc & Hrun).
    split; [exact Hidx|].
    assert (Hto : exists s, slice_to log (idx - 1) = Some s).
    { unfold slice_to.
      destruct (0 <=? idx - 1) eqn:E1; [|apply Z.leb_gt in E1; lia].
      destruct (idx - 1 <=? len log) eqn:E2; [|apply Z.leb_gt in E2; lia].
      cbn [andb]. eauto. }
    split; [exact Hto|]. split.
    + unfold slice_from.
      destruct (0 <=? idx) eqn:E1; [|apply Z.leb_gt in E1; lia].
      destruct (idx <=? len log) eqn:E2; [|apply Z.leb_gt in E2; lia].
      cbn [andb]. eauto.
    + split; [|exact Hrun].
      unfold lib.loop_body. destruct Hto as [s ->].
      destruct (LastIndexByte s nl =? -1); discriminate.
Qed.

Lemma findBuildFailure_in_bounds_witness :
  exists r, lib.findBuildFailure (B "a" ++ [nl] ++ B "b" ++ [nl]) 1 = Some r.
Proof.
  apply (findBuildFailure_in_bounds (B "a" ++ [nl] ++ B "b" ++ [nl]) 1).
  lia.
Defined.

End TailTheorems.

(** ** The progress throttle *)

Section ThrottleTheorems.

Import time main throttle.

Lemma durToUse_interval (elapsed : Duration) :
  durToUse elapsed = interval elapsed.
Proof.
  unfold durToUse, interval, Minute, Second, Millisecond, Microsecond,
    Nanosecond.
  repeat match goal with
         | |- context [?a <? ?b] =>
             destruct (Z.ltb_spec a b); cbn [andb]
         | |- context [?a <=? ?b] =>
             destruct (Z.leb_spec a b); cbn [andb]
         end; try reflexivity; lia.
Qed.

(** The function [interval] is the table, row by row. *)
Lemma interval_rows (elapsed : Duration) :
  (elapsed <= 1 * Minute -> interval elapsed = 10 * Second) /\
  (1 * Minute < elapsed <= 3 * Minute -> interval elapsed = 15 * Second) /\
  (3 * Minute < elapsed <= 5 * Minute -> interval elapsed = 20 * Second) /\
  (5 * Minute < elapsed <= 8 * Minute -> interval elapsed = 30 * Second) /\
  (8 * Minute < elapsed <= 25 * Minute -> interval elapsed = 2 * Minute) /\
  (25 * Minute < elapsed -> interval elapsed = 3 * Minute).
Proof.
  unfold interval, Minute, Second, Millisecond, Microsecond, Nanosecond.
  repeat split; intros H;
    repeat match goal with
           | |- context [?a <? ?b] =>
               destruct (Z.ltb_spec a b); cbn [andb]
           | |- context [?a <=? ?b] =>
               destruct (Z.leb_spec a b); cbn [andb]
           end; try reflexivity; lia.
Qed.

(** C2.  [shouldPrint(t, elapsed)] is true exactly when [t] plus the
    interval of the table for [elapsed] is strictly before now; the
    interval the code selects is the one of the table. *)
Theorem shouldPrint_table (now t : Time) (elapsed : Duration) :
  (shouldPrint now t elapsed = true <-> t + interval elapsed < now) /\
  durToUse elapsed = interval elapsed.
Proof.
  split; [|apply durToUse_interval].
  unfold shouldPrint, Before, Add. rewrite durToUse_interval.
  apply Z.ltb_lt.
Qed.

(** C3, as amended.  [shouldPrint(t, elapsed)] is true exactly when
    [now - t] is strictly greater than the interval; when [now - t]
    equals the interval it is false. *)
Theorem shouldPrint_strict (now t : Time) (elapsed : Duration) :
  (shouldPrint now t elapsed = true <-> now - t > interval elapsed) /\
  shouldPrint (t + interval elapsed) t elapsed = false.
Proof.
  unfold shouldPrint, Before, Add. rewrite durToUse_interval. split.
  - rewrite Z.ltb_lt. lia.
  - apply Z.ltb_irrefl.
Qed.

(** C3 as the specification words it fails: thirty seconds into the
    session and exactly ten seconds after the last print, nothing is
    printed. *)
Lemma shouldPrint_not_due_at_the_interval :
  shouldPrint (10 * Second) 0 (30 * Second) = false /\
  10 * Second - 0 >= interval (30 * Second) /\
  ~ due_at_the_interval.
Proof.
  split; [reflexivity|]. split; [vm_compute; discriminate|].
  intros H.
  assert (E : shouldPrint (10 * Second) 0 (30 * Second) = true).
  { apply H. vm_compute. discriminate. }
  vm_compute in E. discriminate.
Qed.

End ThrottleTheorems.

(** ** The error classifier *)

Section ClassifierTheorems.

Import main classifier.

(** C4.  [isHttpError]: a nil error is not classified; a URL error is
    classified by the error it wraps; a DNS failure is retried, also
    inside a URL error; an operation error is retried when it is a dial
    on tcp and not when it is a read; an unknown network error, and a URL
    error around an error without timeout, are not retried. *)
Theorem isHttpError_classification :
  isHttpError nil_error = false /\
  (forall Op URL e, isHttpError (url_Error Op URL e) = type_switch e) /\
  (forall Op URL e,
      (forall o u e', e <> url_Error o u e') ->
      isHttpError (url_Error Op URL e) = isHttpError e) /\
  (forall Err Name t t', isHttpError (net_DNSError Err Name t t') = true) /\
  (forall Op URL Err Name t t',
      isHttpError (url_Error Op URL (net_DNSError Err Name t t')) = true) /\
  (forall e, isHttpError (net_OpError "dial" "tcp" e) = true) /\
  (forall Net e, isHttpError (net_OpError "read" Net e) = false) /\
  (forall s, isHttpError (net_UnknownNetworkError s) = false) /\
  (forall Op URL s,
      isHttpError (url_Error Op URL (net_UnknownNetworkError s)) = false) /\
  (forall Op URL text,
      isHttpError (url_Error Op URL (errors_New text)) = false).
Proof.
  repeat split; try reflexivity.
  intros Op URL e Hurl.
  destruct e; try reflexivity. exfalso. eapply Hurl. reflexivity.
Qed.

(** An error with a timeout signal is retried unless, once unwrapped, it
    is a [*net.OpError]. *)
Lemma isHttpError_timeout_elsewhere (err : error) :
  timeout_signal (unwrapped err) ->
  (forall Op Net e, unwrapped err <> net_OpError Op Net e) ->
  isHttpError err = true.
Proof.
  intros [Himpl Htime] Hop.
  assert (Hsw : type_switch (unwrapped err) = true).
  { unfold type_switch. destruct (unwrapped err) eqn:E; try reflexivity;
      try (now rewrite Himpl, Htime).
    exfalso. eapply Hop. reflexivity. }
  destruct err; exact Hsw.
Qed.

(** C5: the code at a read that timed out.  The error reports a timeout
    and implements [net.Error], and [isHttpError] answers false, because
    the case [*net.OpError] of the type switch comes before the case
    [net.Error]. *)
Theorem isHttpError_read_timeout :
  timeout_signal read_timeout /\
  isHttpError read_timeout = false /\
  isHttpError (url_Error "Get" "https://api.github.com" read_timeout) = false /\
  ~ timeouts_retried.
Proof.
  assert (Hsig : timeout_signal read_timeout) by (split; reflexivity).
  repeat split; try reflexivity.
  intros H. specialize (H read_timeout Hsig). discriminate H.
Qed.

End ClassifierTheorems.

(** ** Durations of runs *)

Section DurationTheorems.

Import time lib duration.

Lemma wrap64_small (z : Z) : - 2 ^ 63 <= z < 2 ^ 63 -> wrap64 z = z.
Proof.
  intros H. unfold wrap64.
  rewrite Z.mod_small; lia.
Qed.

Lemma lessThanHalf_small (r m : Z) :
  0 <= r < m -> m < 2 ^ 62 -> lessThanHalf r m = (r + r <? m).
Proof.
  intros Hr Hm. unfold lessThanHalf.
  rewrite !Z.mod_small by lia. reflexivity.
Qed.

Lemma Sub_range (t u : Time) : minDuration <= Sub t u <= maxDuration.
Proof.
  unfold Sub, minDuration, maxDuration.
  destruct (Z.ltb_spec (t - u) (- 2 ^ 63)); [lia|].
  destruct (Z.ltb_spec (2 ^ 63 - 1) (t - u)); lia.
Qed.

Lemma Sub_nonneg (t u : Time) : u <= t -> 0 <= Sub t u.
Proof.
  intros H. unfold Sub, minDuration, maxDuration.
  destruct (Z.ltb_spec (t - u) (- 2 ^ 63)); [lia|].
  destruct (Z.ltb_spec (2 ^ 63 - 1) (t - u)); lia.
Qed.

Lemma Sub_exact (t u : Time) :
  minDuration <= t - u <= maxDuration -> Sub t u = t - u.
Proof.
  intros H. unfold Sub, minDuration, maxDuration in *.
  destruct (Z.ltb_spec (t - u) (- 2 ^ 63)); [lia|].
  destruct (Z.ltb_spec (2 ^ 63 - 1) (t - u)); lia.
Qed.

Lemma Second_value : Second = 1000000000.
Proof. reflexivity. Qed.

(** Rounding a non-negative duration gives a non-negative duration. *)
Lemma Round_nonneg (d : Duration) :
  0 <= d <= maxDuration -> 0 <= Round d Second.
Proof.
  intros Hd. unfold Round, maxDuration in *. rewrite Second_value.
  cbn [Z.leb Z.compare].
  destruct (Z.ltb_spec d 0); [lia|].
  pose proof (Z.rem_bound_pos d 1000000000 ltac:(lia) ltac:(lia)) as Hr.
  pose proof (Z.rem_le d 1000000000 ltac:(lia) ltac:(lia)) as Hle.
  destruct (lessThanHalf (Z.rem d 1000000000) 1000000000).
  - rewrite wrap64_small; lia.
  - destruct (Z.ltb_spec d (wrap64 (d + 1000000000 - Z.rem d 1000000000)));
      lia.
Qed.

(** Away from the ends of the range, rounding gives the nearest whole
    number of seconds. *)
Lemma Round_nearest (d : Duration) :
  minDuration + Second <= d <= maxDuration - Second ->
  (exists k, Round d Second = k * Second) /\
  2 * Z.abs (Round d Second - d) <= Second.
Proof.
  intros Hd. unfold Round, minDuration, maxDuration in *.
  rewrite Second_value in *. cbn [Z.leb Z.compare].
  pose proof (Z.quot_rem' d 1000000000) as Hq.
  destruct (Z.ltb_spec d 0) as [Hneg|Hpos].
  - pose proof (Z.rem_bound_abs d 1000000000 ltac:(lia)) as Hr.
    pose proof (Z.rem_nonpos d 1000000000 ltac:(lia) ltac:(lia)) as Hr'.
    rewrite lessThanHalf_small by lia.
    destruct (Z.ltb_spec (- Z.rem d 1000000000 + - Z.rem d 1000000000)
                         1000000000).
    + rewrite wrap64_small by lia. split; [|lia].
      exists (Z.quot d 1000000000). lia.
    + rewrite wrap64_small by lia.
      destruct (Z.ltb_spec (d - 1000000000 + - Z.rem d 1000000000) d);
        [|lia].
      split; [|lia]. exists (Z.quot d 1000000000 - 1). lia.
  - pose proof (Z.rem_bound_pos d 1000000000 ltac:(lia) ltac:(lia)) as Hr.
    rewrite lessThanHalf_small by lia.
    destruct (Z.ltb_spec (Z.rem d 1000000000 + Z.rem d 1000000000)
                         1000000000).
    + rewrite wrap64_small by lia. split; [|lia].
      exists (Z.quot d 1000000000). lia.
    + rewrite wrap64_small by lia.
      destruct (Z.ltb_spec d (d + 1000000000 - Z.rem d 1000000000)); [|lia].
      split; [|lia]. exists (Z.quot d 1000000000 + 1). lia.
Qed.

(** C6, as amended.  [Duration()] is zero for a run without start stamp;
    otherwise it is [end - start] rounded to whole seconds, with [end] the
    update stamp of a completed run and the clock for any other, and it is
    not negative whenever [end] is not before the start stamp. *)
Theorem Duration_from_start (now : Time) (r : WorkflowRun.t) :
  (WorkflowRun.RunStartedAt r = None -> WorkflowRun.Duration now r = 0) /\
  (forall started,
      WorkflowRun.RunStartedAt r = Some started ->
      let end_ :=
        if WorkflowRun.IsCompleted r then WorkflowRun.UpdatedAt r else now in
      WorkflowRun.Duration now r = Round (Sub end_ started) Second /\
      (started <= end_ -> 0 <= WorkflowRun.Duration now r) /\
      (minDuration + Second <= end_ - started <= maxDuration - Second ->
       (exists k, WorkflowRun.Duration now r = k * Second) /\
       2 * Z.abs (WorkflowRun.Duration now r - (end_ - started)) <= Second)).
Proof.
  unfold WorkflowRun.Duration. split.
  - intros ->. reflexivity.
  - intros started ->. cbv zeta. split; [reflexivity|]. split.
    + intros H. apply Round_nonneg. split.
      * now apply Sub_nonneg.
      * apply Sub_range.
    + intros H. rewrite Sub_exact.
      * now apply Round_nearest.
      * unfold minDuration, maxDuration in *. rewrite Second_value in H. lia.
Qed.

(** C6 as the specification words it fails: for a run in progress whose
    start stamp is two seconds ahead of the local clock the duration is
    minus two seconds. *)
Lemma Duration_negative :
  WorkflowRun.Duration (8 * Second) started_ahead_of_clock = - (2 * Second)
  /\ ~ never_negative.
Proof.
  split; [reflexivity|].
  intros H. specialize (H (8 * Second) started_ahead_of_clock).
  vm_compute in H. apply H. reflexivity.
Qed.

End DurationTheorems.

(** ** The job summary *)

Section SummaryTheorems.

Import lib summary.

Lemma job_row_not_failed (isatty isatty' : bool) (job : Job.t) :
  Job.Failed job = false -> job_row isatty job = job_row isatty' job.
Proof. intros H. unfold job_row. now rewrite H. Qed.

Lemma jobs_loop_failedJob (isatty : bool) (jobs : list Job.t) :
  forall writer failedJob,
    snd (jobs_loop isatty jobs writer failedJob)
    = match failedJob with
      | Some j => Some j
      | None => find Job.Failed jobs
      end.
Proof.
  induction jobs as [|job jobs IH]; intros writer failedJob.
  - now destruct failedJob.
  - cbn [jobs_loop find]. rewrite IH.
    destruct failedJob as [j|]; cbn [is_None].
    + now rewrite andb_false_r.
    + rewrite andb_true_r. now destruct (Job.Failed job).
Qed.

Lemma jobs_loop_no_failure (isatty isatty' : bool) (jobs : list Job.t) :
  forallb (fun j => negb (Job.Failed j)) jobs = true ->
  forall writer failedJob,
    jobs_loop isatty jobs writer failedJob
    = jobs_loop isatty' jobs writer failedJob.
Proof.
  induction jobs as [|job jobs IH]; intros Hall writer failedJob.
  - reflexivity.
  - cbn [forallb] in Hall. apply andb_true_iff in Hall as [Hj Hall].
    apply negb_true_iff in Hj. cbn [jobs_loop].
    rewrite (job_row_not_failed isatty isatty' job Hj).
    now apply IH.
Qed.

(** C9, as amended.  [buildJobsSummary] is a function of the job list and
    of the answer of [isatty()].  The failed job it selects is the first
    job of the list that failed, whatever the terminal; the table does not
    depend on the terminal when no job of the list failed. *)
Theorem buildJobsSummary_terminal (isatty isatty' : bool)
        (jobs : list Job.t) :
  snd (buildJobsSummary isatty jobs) = find Job.Failed jobs /\
  snd (buildJobsSummary isatty jobs) = snd (buildJobsSummary isatty' jobs) /\
  (forallb (fun j => negb (Job.Failed j)) jobs = true ->
   buildJobsSummary isatty jobs = buildJobsSummary isatty' jobs).
Proof.
  assert (Hsnd : forall tty,
             snd (buildJobsSummary tty jobs) = find Job.Failed jobs).
  { intros tty. unfold buildJobsSummary.
    pose proof (jobs_loop_failedJob tty jobs (tabwriter.NewWriter [nl]) None)
      as H.
    destruct (jobs_loop tty jobs (tabwriter.NewWriter [nl]) None).
    exact H. }
  split; [apply Hsnd|]. split; [now rewrite !Hsnd|].
  intros Hall. unfold buildJobsSummary.
  now rewrite (jobs_loop_no_failure isatty isatty' jobs Hall).
Qed.

(** C9 as the specification words it fails: with one failed job the
    table written for a terminal carries the colour escapes and differs
    from the table written for a pipe. *)
Lemma buildJobsSummary_depends_on_terminal :
  fst (buildJobsSummary false [job "test" "failure"])
  = [nl] ++ B "test 1s" ++ [nl] /\
  fst (buildJobsSummary true [job "test" "failure"])
  = [nl] ++ B "test " ++ color_on ++ B "1s      " ++ color_off ++ [nl] /\
  ~ independent_of_terminal.
Proof.
  split; [reflexivity|]. split; [reflexivity|].
  intros H. specialize (H true false [job "test" "failure"]).
  vm_compute in H. discriminate H.
Qed.

End SummaryTheorems.

(** ** The failure report *)

Section ReportTheorems.

Import io lib client summary.

(** The tabwriter only ever adds to what it has written. *)
Lemma write_byte_output (w : tabwriter.Writer) (ch : byte) :
  exists more,
    tabwriter.output (tabwriter.write_byte w ch) = tabwriter.output w ++ more.
Proof.
  unfold tabwriter.write_byte.
  destruct (tabwriter.endChar w).
  - exists []. rewrite app_nil_r. now destruct (Byte.eqb ch tabwriter.Escape).
  - destruct (tabwriter.is_break ch).
    + destruct (Byte.eqb ch x0a || Byte.eqb ch x0c).
      * match goal with
        | |- context [if ?c then _ else _] => destruct c
        end.
        -- eexists. cbn. reflexivity.
        -- exists []. now rewrite app_nil_r.
      * exists []. now rewrite app_nil_r.
    + exists []. rewrite app_nil_r. now destruct (Byte.eqb ch tabwriter.Escape).
Qed.

Lemma Write_output (buf : bytes) :
  forall w : tabwriter.Writer,
  exists more,
    tabwriter.output (tabwriter.Write w buf) = tabwriter.output w ++ more.
Proof.
  unfold tabwriter.Write.
  induction buf as [|ch buf IH]; intros w.
  - exists []. now rewrite app_nil_r.
  - cbn [fold_left].
    destruct (IH (tabwriter.write_byte w ch)) as [more2 H2].
    destruct (write_byte_output w ch) as [more1 H1].
    exists (more1 ++ more2). now rewrite H2, H1, app_assoc.
Qed.

Lemma jobs_loop_output (isatty : bool) (jobs : list Job.t) :
  forall writer failedJob,
  exists more,
    tabwriter.output (fst (jobs_loop isatty jobs writer failedJob))
    = tabwriter.output writer ++ more.
Proof.
  induction jobs as [|job jobs IH]; intros writer failedJob.
  - exists []. now rewrite app_nil_r.
  - cbn [jobs_loop].
    match goal with
    | |- context [jobs_loop _ _ ?w ?f] => destruct (IH w f) as [more2 H2]
    end.
    destruct (Write_output (job_row isatty job) writer) as [more1 H1].
    exists (more1 ++ more2). now rewrite H2, H1, app_assoc.
Qed.

(** The summary starts with the newline written first. *)
Lemma buildJobsSummary_head (isatty : bool) (jobs : list Job.t) :
  exists table, fst (buildJobsSummary isatty jobs) = nl :: table.
Proof.
  unfold buildJobsSummary.
  destruct (jobs_loop_output isatty jobs (tabwriter.NewWriter [nl]) None)
    as [more H].
  destruct (jobs_loop isatty jobs (tabwriter.NewWriter [nl]) None)
    as [writer failedJob].
  cbn [fst] in *. unfold tabwriter.Flush, tabwriter.flushNoDefers.
  cbn [tabwriter.output].
  match goal with
  | |- context [if ?c then _ else _] => destruct c
  end.
  - unfold tabwriter.terminateCell at 1. cbn [tabwriter.output].
    assert (Hout : forall x : tabwriter.Writer,
               tabwriter.output (if tabwriter.endChar writer
                                 then tabwriter.endEscape x else x)
               = tabwriter.output x)
      by (intros x; now destruct (tabwriter.endChar writer)).
    rewrite Hout, H. cbn. eauto.
  - rewrite H. cbn. eauto.
Qed.

Lemma slice_from_tail {A : Type} (a : A) (s : list A) :
  slice_from (a :: s) 1 = Some s.
Proof.
  unfold slice_from. rewrite len_cons. pose proof (len_nonneg s).
  destruct (Z.leb_spec 1 (1 + len s)); [reflexivity|lia].
Qed.

Lemma findBuildFailure_nonempty (logs : bytes) (n : Z) (failure : bytes) :
  findBuildFailure logs n = Some failure -> failure <> [] -> logs <> [].
Proof.
  intros H Hne ->. unfold findBuildFailure in H. cbn in H. congruence.
Qed.

(** C8.  Once the jobs are listed, [BuildSummary] returns the table of
    job durations and the line under it, followed by an excerpt that is
    empty or holds the tail of the log of the failed job.  When fetching
    that log fails, the error goes nowhere and the excerpt is empty; the
    excerpt is present only when the log was fetched and is not empty. *)
Theorem BuildSummary_best_effort (w : World) (owner repo : string)
        (run : WorkflowRun.t) (numOutputLines : Z) (h : history)
        (jobs : JobsResponse.t) :
  let h1 := h ++ [ev_ListJobs owner repo (WorkflowRun.ID run)] in
  let summary :=
    fst (buildJobsSummary (IsTerminal w h1) (JobsResponse.Jobs jobs)) in
  let failedJob :=
    snd (buildJobsSummary (IsTerminal w h1) (JobsResponse.Jobs jobs)) in
  ListJobs w h owner repo (WorkflowRun.ID run) = (jobs, nil_error) ->
  (forall job,
      failedJob = Some job ->
      is_nil (snd (GetJobLogs w h1 owner repo (Job.ID job))) = false ->
      fst (BuildSummary w owner repo run numOutputLines h)
      = Some (summary ++ [nl] ++ rule summary)) /\
  (exists excerpt,
      fst (BuildSummary w owner repo run numOutputLines h)
      = Some (summary ++ [nl] ++ rule summary ++ excerpt) /\
      (excerpt <> [] ->
       exists job logs failure,
         failedJob = Some job /\
         GetJobLogs w h1 owner repo (Job.ID job) = (logs, nil_error) /\
         logs <> [] /\
         findBuildFailure logs numOutputLines = Some failure /\
         failure <> [] /\
         excerpt = excerpt_heading numOutputLines ++ failure)).
Proof.
  intros h1 summary failedJob Hjobs.
  unfold BuildSummary, bind, call, isatty, ret. rewrite Hjobs.
  cbn [is_nil negb]. fold h1.
  destruct (buildJobsSummary_head (IsTerminal w h1) (JobsResponse.Jobs jobs))
    as [table Htable].
  fold summary in Htable.
  assert (Hrule : forall failure,
             buf2 (IndexByte table nl) failure numOutputLines
             = [nl] ++ rule summary
               ++ (if 0 <? len failure
                   then excerpt_heading numOutputLines ++ failure else [])).
  { intros failure. unfold buf2, rule. rewrite Htable. reflexivity. }
  assert (Hempty : forall h2 : history,
             fst (match slice_from (nl :: table) 1 with
                  | Some summary1 =>
                      ret (Some ((nl :: table)
                                 ++ buf2 (IndexByte summary1 nl) []
                                         numOutputLines))
                  | None => ret None
                  end h2)
             = Some ((nl :: table) ++ [nl] ++ rule (nl :: table))).
  { intros h2. rewrite slice_from_tail. unfold ret. cbn [fst].
    rewrite Hrule, Htable. cbn. now rewrite app_nil_r. }
  subst summary failedJob.
  destruct (buildJobsSummary (IsTerminal w h1) (JobsResponse.Jobs jobs))
    as [summary failedJob].
  cbn [fst snd] in *. subst summary.
  unfold fetch_failure, bind, call.
  destruct failedJob as [job|].
  - destruct (GetJobLogs w h1 owner repo (Job.ID job)) as [logs err] eqn:Elogs.
    destruct err; cbn [is_nil snd].
    2-6: split;
      [ intros j _ _; apply Hempty
      | exists []; split; [rewrite app_nil_r; apply Hempty | congruence] ].
    pose proof (findBuildFailure_lines logs numOutputLines) as Hf0.
    destruct (findBuildFailure logs numOutputLines) as [failure|] eqn:Hf;
      [clear Hf0|discriminate Hf0].
    unfold ret at 1. rewrite slice_from_tail. unfold ret. cbn [fst].
    split; [intros j [= <-] Hn; rewrite Elogs in Hn; discriminate Hn|].
    eexists. split.
    + rewrite Hrule. reflexivity.
    + intros Hex.
      destruct (Z.ltb_spec 0 (len failure)) as [Hpos|Hpos]; [|congruence].
      assert (Hne : failure <> [])
        by (intros ->; cbn in Hpos; lia).
      exists job, logs, failure.
      split; [reflexivity|]. split; [exact Elogs|].
      split; [now apply (findBuildFailure_nonempty _ _ _ Hf)|].
      split; [exact Hf|]. split; [exact Hne|reflexivity].
  - split; [intros j Hj; discriminate Hj|].
    exists []. split; [rewrite app_nil_r; apply Hempty | congruence].
Qed.

Lemma BuildSummary_best_effort_witness :
  fst (BuildSummary scenario.log_fetch_fails "kevinburke" "github-actions"
                    scenario.failed_run 100 [])
  = Some ([nl] ++ B "test 1s" ++ [nl] ++ [nl] ++ B "=======").
Proof.
  destruct (BuildSummary_best_effort
              scenario.log_fetch_fails "kevinburke" "github-actions"
              scenario.failed_run 100 []
              (JobsResponse.mk 1 [job "test" "failure"]) eq_refl)
    as [Hswallowed _].
  exact (Hswallowed (job "test" "failure") eq_refl eq_refl).
Defined.

End ReportTheorems.

(** ** Sessions *)

Section SessionTheorems.

Import time io lib client main session.

Variable w : World.
Variable remote : RemoteURL.
Variable branch : string.
Variable numOutputLines : Z.

Let owner := Path remote.
Let repo := RepoName remote.

Ltac run_io := unfold now, emit, isatty in *; unfold bind, call, ret in *.

Ltac api_simpl :=
  unfold api_calls; rewrite ?filter_app; cbn [filter is_api app];
  rewrite ?app_nil_r; try reflexivity.

Lemma api_calls_app (h h' : history) :
  api_calls (h ++ h') = api_calls h ++ api_calls h'.
Proof. apply filter_app. Qed.

Lemma wait_api (timer : Duration) (lp : Time) (h : history) :
  api_calls (snd (wait w timer lp h)) = api_calls h.
Proof.
  unfold wait. run_io. destruct (Done w h); cbn [snd]; api_simpl.
Qed.

Lemma run_Duration_api (run : WorkflowRun.t) (h : history) :
  api_calls (snd (run_Duration w run h)) = api_calls h.
Proof.
  unfold run_Duration. run_io.
  destruct (negb (is_None (WorkflowRun.RunStartedAt run))
            && negb (WorkflowRun.IsCompleted run)); cbn [snd]; api_simpl.
Qed.

Lemma max_duration_api (runs : list WorkflowRun.t) :
  forall (d : Duration) (h : history),
    api_calls (snd (max_duration w runs d h)) = api_calls h.
Proof.
  induction runs as [|run runs IH]; intros d h; [reflexivity|].
  cbn [max_duration]. unfold bind.
  pose proof (run_Duration_api run h) as Hd.
  destruct (run_Duration w run h) as [d' h']. cbn [snd] in Hd.
  now rewrite IH.
Qed.

Lemma print_status_api (runs : list WorkflowRun.t) :
  forall h : history, api_calls (snd (print_status w runs h)) = api_calls h.
Proof.
  induction runs as [|run runs IH]; intros h; [reflexivity|].
  cbn [print_status]. unfold bind at 1.
  pose proof (run_Duration_api run h) as Hd.
  destruct (run_Duration w run h) as [d' h']. cbn [snd] in Hd.
  run_io. rewrite IH. api_simpl. exact Hd.
Qed.

Lemma BuildJobsSummary_api (run : WorkflowRun.t) (h : history) :
  api_calls (snd (BuildJobsSummary w owner repo run h))
  = api_calls h ++ [ev_ListJobs owner repo (WorkflowRun.ID run)].
Proof.
  unfold BuildJobsSummary. run_io.
  destruct (ListJobs w h owner repo (WorkflowRun.ID run)) as [jobs err].
  destruct (negb (is_nil err)); [cbn [snd]; api_simpl|].
  destruct (buildJobsSummary _ _). cbn [snd]. api_simpl.
Qed.

Lemma print_summaries_api (runs : list WorkflowRun.t) :
  forall h : history,
    api_calls (snd (print_summaries w owner repo runs h))
    = api_calls h
      ++ map (fun run => ev_ListJobs owner repo (WorkflowRun.ID run)) runs.
Proof.
  induction runs as [|run runs IH]; intros h.
  - cbn. now rewrite app_nil_r.
  - cbn [print_summaries map]. unfold bind, emit, call.
    pose proof (BuildJobsSummary_api run
                  (h ++ [ev_Printf "\nWorkflow %q (run %d)\n"
                                   [arg_s (WorkflowRun.Name run);
                                    arg_d (WorkflowRun.RunNumber run)]]))
      as Hs.
    destruct (BuildJobsSummary w owner repo run _) as [summary h'].
    cbn [snd] in Hs. rewrite IH. rewrite api_calls_app, Hs.
    rewrite api_calls_app. cbn. rewrite app_nil_r, <- !app_assoc.
    reflexivity.
Qed.

Lemma print_links_api (runs : list WorkflowRun.t) (h : history) :
  api_calls (snd (print_links remote branch runs h)) = api_calls h.
Proof.
  unfold print_links. run_io.
  destruct runs as [|run0 runs]; [reflexivity|].
  destruct (WorkflowRun.PullRequests run0); cbn [snd]; api_simpl.
Qed.

(** The branch of a successful build ends the session without error, and
    its only requests list the jobs of each run. *)
Lemma report_success_stops (runs : list WorkflowRun.t) (h : history) :
  fst (report_success w remote branch runs h) = Stop (Returns nil_error) /\
  api_calls (snd (report_success w remote branch runs h))
  = api_calls h
    ++ map (fun run => ev_ListJobs owner repo (WorkflowRun.ID run)) runs.
Proof.
  unfold report_success. fold owner repo. run_io.
  pose proof (max_duration_api runs 0 h) as Hmax.
  destruct (max_duration w runs 0 h) as [total h1]. cbn [snd] in Hmax.
  pose proof (print_summaries_api runs h1) as Hsum.
  destruct (print_summaries w owner repo runs h1) as [[] h2].
  cbn [snd] in Hsum.
  match goal with
  | |- context [print_links remote branch runs ?h3] =>
      pose proof (print_links_api runs h3) as Hlinks;
      destruct (print_links remote branch runs h3) as [[] h4]
  end.
  cbn [fst snd] in *. split; [reflexivity|].
  rewrite api_calls_app, Hlinks, !api_calls_app, Hsum, Hmax. cbn.
  now rewrite !app_nil_r.
Qed.

Lemma report_failure_stops (failedRun : WorkflowRun.t) (h : history) :
  exists o h', report_failure w owner repo branch failedRun numOutputLines h
               = (Stop o, h').
Proof.
  unfold report_failure. unfold bind at 1.
  destruct (BuildSummary w owner repo failedRun numOutputLines h)
    as [[data|] h1]; run_io; eauto.
Qed.

Lemma still_running_api (runs : list WorkflowRun.t) (lp : Time)
      (elapsed : Duration) (h : history) :
  api_calls (snd (still_running w runs lp elapsed h)) = api_calls h.
Proof.
  unfold still_running. unfold bind at 1, now at 1, call at 1.
  unfold bind at 1.
  destruct (shouldPrint (Now w h) lp elapsed).
  - unfold bind at 1.
    pose proof (print_status_api runs (h ++ [ev_Now])) as Hp.
    destruct (print_status w runs (h ++ [ev_Now])) as [[] h1].
    cbn [snd] in Hp. unfold now, call. rewrite wait_api.
    rewrite api_calls_app, Hp. api_simpl.
  - unfold ret. rewrite wait_api. api_simpl.
Qed.

Lemma IsSuccess_facts (run : WorkflowRun.t) :
  WorkflowRun.IsSuccess run = true ->
  WorkflowRun.IsCompleted run = true /\ WorkflowRun.IsFailed run = false.
Proof.
  unfold WorkflowRun.IsSuccess, WorkflowRun.IsFailed.
  destruct (WorkflowRun.IsCompleted run); [|discriminate].
  destruct (WorkflowRun.Conclusion run) as [c|]; [|discriminate].
  cbn. intros Hc. apply String.eqb_eq in Hc. subst c. split; reflexivity.
Qed.

Lemma inspect_success (runs : list WorkflowRun.t) :
  forallb WorkflowRun.IsSuccess runs = true ->
  forall allComplete anyFailed failedRun,
    inspect runs allComplete anyFailed failedRun
    = (allComplete, anyFailed, failedRun).
Proof.
  induction runs as [|run runs IH]; intros Hall a f fr; [reflexivity|].
  cbn [forallb] in Hall. apply andb_true_iff in Hall as [Hrun Hall].
  destruct (IsSuccess_facts run Hrun) as [Hc Hf].
  cbn [inspect]. rewrite Hc, Hf. cbn [negb]. now apply IH.
Qed.

(** A pass that finds every run succeeded ends the session without
    error; its requests are the poll and the listing of the jobs of each
    run. *)
Lemma cycle_success (tip : string) (startTime lp : Time) (h : history)
      (runs : list WorkflowRun.t) :
  FindWorkflowRunsForCommit w h owner repo tip = (runs, nil_error) ->
  runs <> [] ->
  forallb WorkflowRun.IsSuccess runs = true ->
  fst (cycle w remote branch tip numOutputLines startTime lp h)
  = Stop (Returns nil_error) /\
  api_calls (snd (cycle w remote branch tip numOutputLines startTime lp h))
  = api_calls h
    ++ ev_FindWorkflowRunsForCommit owner repo tip
       :: map (fun run => ev_ListJobs owner repo (WorkflowRun.ID run)) runs.
Proof.
  intros Hpoll Hne Hall. unfold cycle. fold owner repo.
  unfold bind, now, call. rewrite Hpoll. cbn [is_nil negb].
  destruct (Z.eqb_spec (len runs) 0) as [E|_].
  { destruct runs; [congruence|]. rewrite len_cons in E.
    pose proof (len_nonneg runs). lia. }
  rewrite (inspect_success runs Hall).
  match goal with
  | |- context [report_success w remote branch runs ?h1] =>
      destruct (report_success_stops runs h1) as [Hfst Hapi]
  end.
  split; [exact Hfst|].
  rewrite Hapi, !api_calls_app. cbn. rewrite app_nil_r, <- app_assoc.
  reflexivity.
Qed.

(** A pass after which the loop goes on has sent the poll and nothing
    else. *)
Lemma cycle_continue (tip : string) (startTime lp lp' : Time)
      (h h' : history) :
  cycle w remote branch tip numOutputLines startTime lp h
  = (Continue lp', h') ->
  api_calls h'
  = api_calls h ++ [ev_FindWorkflowRunsForCommit owner repo tip].
Proof.
  unfold cycle. fold owner repo. unfold bind at 1, call at 1.
  destruct (FindWorkflowRunsForCommit w h owner repo tip) as [runs err].
  set (h1 := h ++ [ev_FindWorkflowRunsForCommit owner repo tip]).
  assert (Hh1 : api_calls h1
                = api_calls h
                  ++ [ev_FindWorkflowRunsForCommit owner repo tip])
    by (unfold h1; api_simpl).
  destruct (negb (is_nil err)).
  - destruct (isHttpError err); [|discriminate].
    unfold retry, bind, emit, now, call. intros H.
    apply (f_equal snd) in H. cbn [snd] in H. rewrite <- H.
    rewrite wait_api, !api_calls_app. cbn. now rewrite !app_nil_r.
  - destruct (len runs =? 0).
    + unfold no_runs. destruct (String.length tip <? 8)%nat; [discriminate|].
      unfold bind, emit, now, call. intros H.
      apply (f_equal snd) in H. cbn [snd] in H. rewrite <- H.
      rewrite wait_api, !api_calls_app. cbn. now rewrite !app_nil_r.
    + destruct (inspect runs true false None)
        as [[allComplete anyFailed] failedRun].
      unfold bind at 1, now at 1, call at 1.
      destruct allComplete.
      * destruct anyFailed, failedRun as [failedRun|].
        1: destruct (report_failure_stops failedRun (h1 ++ [ev_Now]))
             as (o & h2 & ->); discriminate.
        all: match goal with
             | |- report_success w remote branch ?rs ?h2 = _ -> _ =>
                 destruct (report_success_stops rs h2) as [Hfst _];
                 intros H; rewrite H in Hfst; discriminate Hfst
             end.
      * intros H. apply (f_equal snd) in H. cbn [snd] in H. rewrite <- H.
        rewrite still_running_api, api_calls_app. cbn.
        now rewrite app_nil_r.
Qed.

Lemma prologue_api (h : history) :
  api_calls (snd (prologue w branch h)) = api_calls h.
Proof.
  unfold prologue. run_io. destruct (Tip w h branch) as [tip err].
  destruct (negb (is_nil err)); cbn [snd]; api_simpl.
Qed.

(** Before its poll number [k] the session has sent [k] polls and nothing
    else, and [doWait] with more fuel goes on from there. *)
Lemma at_poll_sound (k : nat) (tip : string) (startTime lp : Time)
      (h : history) :
  at_poll w remote branch numOutputLines k tip startTime lp h ->
  api_calls h = repeat (ev_FindWorkflowRunsForCommit owner repo tip) k /\
  forall fuel,
    doWait (k + fuel) w remote branch numOutputLines []
    = poll fuel w remote branch tip numOutputLines startTime lp h.
Proof.
  induction 1 as [tip startTime h Hp
                 |k tip startTime lp lp' h h' Hat [IHapi IHrun] Hc].
  - split.
    + pose proof (prologue_api []) as Ha. rewrite Hp in Ha. exact Ha.
    + intros fuel. unfold doWait, bind. now rewrite Hp.
  - split.
    + rewrite (cycle_continue _ _ _ _ _ _ Hc), IHapi.
      change (S k) with (1 + k)%nat. rewrite Nat.add_comm, repeat_app.
      reflexivity.
    + intros fuel.
      replace (S k + fuel)%nat with (k + S fuel)%nat by lia.
      rewrite IHrun. cbn [poll]. unfold bind. now rewrite Hc.
Qed.

Lemma no_log_fetch_api (h : history) :
  Forall (fun e => is_GetJobLogs e = false) (api_calls h) ->
  no_log_fetch h.
Proof.
  unfold no_log_fetch, api_calls. rewrite !Forall_forall.
  intros H e He. destruct (is_GetJobLogs e) eqn:E; [|reflexivity].
  rewrite <- E. apply H. apply filter_In. split; [exact He|].
  now destruct e.
Qed.

(** C7.  When a poll of a session returns runs, at least one, that have
    all completed with conclusion success, [doWait] returns nil in that
    pass of its loop, and at no point of the session a job log was
    fetched: the requests of the whole session are its polls and the
    listing of the jobs of each run. *)
Theorem doWait_success_without_log_fetch (k : nat) (tip : string)
        (startTime lastPrintedAt : Time) (h : history)
        (runs : list WorkflowRun.t) :
  at_poll w remote branch numOutputLines k tip startTime lastPrintedAt h ->
  FindWorkflowRunsForCommit w h (Path remote) (RepoName remote) tip
  = (runs, nil_error) ->
  runs <> [] ->
  forallb WorkflowRun.IsSuccess runs = true ->
  exists h',
    (forall fuel,
        (k < fuel)%nat ->
        doWait fuel w remote branch numOutputLines []
        = (Some (Returns nil_error), h')) /\
    no_log_fetch h' /\
    api_calls h'
    = repeat (ev_FindWorkflowRunsForCommit (Path remote) (RepoName remote) tip)
             (S k)
      ++ map (fun run =>
                ev_ListJobs (Path remote) (RepoName remote)
                            (WorkflowRun.ID run)) runs.
Proof.
  intros Hat Hpoll Hne Hall. fold owner repo in Hpoll |- *.
  destruct (at_poll_sound _ _ _ _ _ Hat) as [Hapi Hrun].
  destruct (cycle_success tip startTime lastPrintedAt h runs Hpoll Hne Hall)
    as [Hfst Hsnd].
  destruct (cycle w remote branch tip numOutputLines startTime
                  lastPrintedAt h) as [c h'] eqn:Hc.
  cbn [fst snd] in *. subst c. exists h'.
  assert (Hcalls : api_calls h'
                   = repeat (ev_FindWorkflowRunsForCommit owner repo tip)
                            (S k)
                     ++ map (fun run =>
                               ev_ListJobs owner repo (WorkflowRun.ID run))
                            runs).
  { rewrite Hsnd, Hapi.
    change (S k) with (1 + k)%nat. rewrite Nat.add_comm, repeat_app.
    cbn. now rewrite <- app_assoc. }
  split; [|split; [|exact Hcalls]].
  - intros fuel Hfuel.
    replace fuel with (k + S (fuel - S k))%nat by lia.
    rewrite Hrun. cbn [poll]. unfold bind. now rewrite Hc.
  - apply no_log_fetch_api. rewrite Hcalls.
    apply Forall_app. split.
    + apply Forall_forall. intros e He.
      apply repeat_spec in He. now subst e.
    + apply Forall_forall. intros e He.
      apply in_map_iff in He as (run & <- & _). reflexivity.
Qed.

End SessionTheorems.

Lemma doWait_success_without_log_fetch_witness :
  exists h',
    (forall fuel,
        (0 < fuel)%nat ->
        main.doWait fuel scenario.build_succeeds scenario.remote "main" 100 []
        = (Some (main.Returns nil_error), h')) /\
    session.no_log_fetch h' /\
    session.api_calls h'
    = repeat (io.ev_FindWorkflowRunsForCommit
                "kevinburke" "github-actions" scenario.sha) 1
      ++ map (fun run =>
                io.ev_ListJobs "kevinburke" "github-actions"
                               (lib.WorkflowRun.ID run))
             [scenario.succeeded_run].
Proof.
  apply (doWait_success_without_log_fetch
           scenario.build_succeeds scenario.remote "main" 100 0
           scenario.sha (1000 * time.Second) time.zero
           [io.ev_Tip "main";
            io.ev_Println [io.arg_s "Waiting for GitHub Actions on";
                           io.arg_s "main"; io.arg_s "to complete"];
            io.ev_Now]
           [scenario.succeeded_run]).
  - apply session.at_first_poll. reflexivity.
  - reflexivity.
  - discriminate.
  - reflexivity.
Defined.

(** * Further properties *)

(** ** The log tail extractor: composition *)

Section TailMore.

Import tail.

Lemma length_lines_tail (k : nat) (log : bytes) :
  List.length (lines (List.concat (skipn k (lines log))))
  = (List.length (lines log) - k)%nat.
Proof. now rewrite lines_skipn, length_skipn. Qed.

(** X1.  Taking the last [n] lines of the last [m] lines is taking the
    last [n] lines, for [n <= m]; with [n = m]: applying
    [findBuildFailure] twice changes nothing. *)
Theorem findBuildFailure_compose (log : bytes) (n m : Z) :
  n <= m ->
  exists r,
    lib.findBuildFailure log m = Some r /\
    lib.findBuildFailure r n = lib.findBuildFailure log n /\
    lib.findBuildFailure r m = Some r.
Proof.
  intros Hnm. rewrite (findBuildFailure_lines log m).
  eexists. split; [reflexivity|].
  rewrite !findBuildFailure_lines.
  set (L := List.length (lines log)).
  destruct (Nat.leb_spec L (Z.to_nat m)) as [Hm|Hm].
  - split; [reflexivity|]. fold L.
    destruct (Nat.leb_spec L (Z.to_nat m)); [reflexivity|lia].
  - unfold last_n. fold L.
    rewrite ?length_lines_tail, ?lines_skipn, ?length_skipn. fold L.
    split.
    + destruct (Nat.leb_spec (L - (L - Z.to_nat m)) (Z.to_nat n)) as [H1|H1];
        destruct (Nat.leb_spec L (Z.to_nat n)) as [H2|H2]; try lia.
      * replace (L - Z.to_nat n)%nat with (L - Z.to_nat m)%nat by lia.
        reflexivity.
      * rewrite skipn_skipn. do 3 f_equal. lia.
    + destruct (Nat.leb_spec (L - (L - Z.to_nat m)) (Z.to_nat m)); [|lia].
      reflexivity.
Qed.

Lemma findBuildFailure_compose_witness :
  lib.findBuildFailure (B "b" ++ [nl] ++ B "c" ++ [nl]) 1
  = lib.findBuildFailure (B "a" ++ [nl] ++ B "b" ++ [nl] ++ B "c" ++ [nl]) 1.
Proof.
  destruct (findBuildFailure_compose
              (B "a" ++ [nl] ++ B "b" ++ [nl] ++ B "c" ++ [nl]) 1 2)
    as (r & Hr & Hn & _); [lia|].
  vm_compute in Hr. injection Hr as <-. exact Hn.
Defined.

Lemma findBuildFailure_nonpositive (log : bytes) (n : Z) :
  n <= 0 -> lib.findBuildFailure log n = Some [].
Proof.
  intros Hn. rewrite findBuildFailure_lines.
  replace (Z.to_nat n) with 0%nat by lia.
  destruct (lines log) as [|l ls] eqn:E.
  - cbn. rewrite <- (concat_lines log), E. reflexivity.
  - cbn [List.length Nat.leb]. unfold last_n.
    rewrite Nat.sub_0_r, skipn_all. reflexivity.
Qed.

End TailMore.

(** ** The progress throttle: order *)

Section ThrottleMore.

Import time main.

Ltac split_ltb :=
  unfold durToUse, Minute, Second, Millisecond, Microsecond, Nanosecond;
  repeat match goal with
         | |- context [?a <? ?b] => destruct (Z.ltb_spec a b)
         end.

Lemma durToUse_mono (elapsed elapsed' : Duration) :
  elapsed <= elapsed' -> durToUse elapsed <= durToUse elapsed'.
Proof. intros H. split_ltb; lia. Qed.

(** X2.  The interval between prints is at least ten seconds and at most
    three minutes, and it never shrinks as the session gets older. *)
Theorem durToUse_escalates (elapsed elapsed' : Duration) :
  elapsed <= elapsed' ->
  10 * Second <= durToUse elapsed /\
  durToUse elapsed <= durToUse elapsed' /\
  durToUse elapsed' <= 3 * Minute.
Proof. intros H. split_ltb; lia. Qed.

Lemma durToUse_escalates_witness :
  10 * Second <= durToUse (2 * Minute) /\
  durToUse (2 * Minute) <= durToUse (10 * Minute) /\
  durToUse (10 * Minute) <= 3 * Minute.
Proof.
  apply (durToUse_escalates (2 * Minute) (10 * Minute)).
  vm_compute. discriminate.
Defined.

(** X3.  A print that is due stays due: later on the clock, and for any
    younger session age, [shouldPrint] is still true. *)
Theorem shouldPrint_stays_due (now now' lastPrinted : Time)
        (elapsed elapsed' : Duration) :
  shouldPrint now lastPrinted elapsed = true ->
  now <= now' ->
  elapsed' <= elapsed ->
  shouldPrint now' lastPrinted elapsed' = true.
Proof.
  unfold shouldPrint, Before, Add. rewrite !Z.ltb_lt. intros Hdue Hnow He.
  pose proof (durToUse_mono elapsed' elapsed He). lia.
Qed.

Lemma shouldPrint_stays_due_witness :
  shouldPrint (20 * Second) 0 (30 * Second) = true.
Proof.
  apply (shouldPrint_stays_due (16 * Second) (20 * Second) 0
                               (2 * Minute) (30 * Second)).
  - reflexivity.
  - vm_compute. discriminate.
  - vm_compute. discriminate.
Defined.

End ThrottleMore.

(** ** Runs: the predicates *)

Section RunPredicates.

Import lib.

(** X4.  No run is both a success and a failure, and a run that is either
    has completed. *)
Theorem IsSuccess_IsFailed_exclusive (r : WorkflowRun.t) :
  WorkflowRun.IsSuccess r && WorkflowRun.IsFailed r = false /\
  (WorkflowRun.IsSuccess r || WorkflowRun.IsFailed r)
  && negb (WorkflowRun.IsCompleted r) = false.
Proof.
  unfold WorkflowRun.IsSuccess, WorkflowRun.IsFailed.
  destruct (WorkflowRun.IsCompleted r); [|split; reflexivity].
  destruct (WorkflowRun.Conclusion r) as [c|]; [|split; reflexivity].
  cbn [negb is_None orb andb]. split; [|now rewrite andb_false_r].
  destruct (String.eqb_spec c "success") as [->|_]; reflexivity.
Qed.

End RunPredicates.

(** ** The failure report: requests and totality *)

Section ReportMore.

Import io lib client summary session.

Ltac api_simpl :=
  unfold api_calls; rewrite ?filter_app; cbn [filter is_api app];
  rewrite ?app_nil_r; try reflexivity.

Lemma buildJobsSummary_failedJob (tty : bool) (jobs : list Job.t) :
  snd (buildJobsSummary tty jobs) = find Job.Failed jobs.
Proof.
  unfold buildJobsSummary.
  pose proof (jobs_loop_failedJob tty jobs (tabwriter.NewWriter [nl]) None)
    as H.
  destruct (jobs_loop tty jobs (tabwriter.NewWriter [nl]) None).
  exact H.
Qed.

(** [BuildSummary] returns data that starts with a newline.  It lists
    the jobs once; it then asks for at most one log, that of the first
    failed job of a listing that succeeded. *)
Lemma BuildSummary_runs (w : World) (owner repo : string)
      (run : WorkflowRun.t) (numOutputLines : Z) (h : history) :
  exists data rest,
    fst (BuildSummary w owner repo run numOutputLines h) = Some (nl :: data) /\
    api_calls (snd (BuildSummary w owner repo run numOutputLines h))
    = api_calls h ++ ev_ListJobs owner repo (WorkflowRun.ID run) :: rest /\
    (rest = [] \/
     exists job,
       rest = [ev_GetJobLogs owner repo (Job.ID job)] /\
       snd (ListJobs w h owner repo (WorkflowRun.ID run)) = nil_error /\
       find Job.Failed
            (JobsResponse.Jobs (fst (ListJobs w h owner repo
                                              (WorkflowRun.ID run))))
       = Some job).
Proof.
  unfold BuildSummary, bind, call, isatty, ret.
  destruct (ListJobs w h owner repo (WorkflowRun.ID run)) as [jobs err].
  set (h1 := h ++ [ev_ListJobs owner repo (WorkflowRun.ID run)]).
  assert (Hh1 : api_calls h1
                = api_calls h ++ [ev_ListJobs owner repo (WorkflowRun.ID run)])
    by (unfold h1; api_simpl).
  destruct err; cbn [is_nil negb fst snd].
  2-6: eexists; exists []; split; [reflexivity|]; split;
         [exact Hh1 | left; reflexivity].
  destruct (buildJobsSummary_head (IsTerminal w h1) (JobsResponse.Jobs jobs))
    as [table Htable].
  pose proof (buildJobsSummary_failedJob (IsTerminal w h1)
                                         (JobsResponse.Jobs jobs)) as Hfailed.
  destruct (buildJobsSummary (IsTerminal w h1) (JobsResponse.Jobs jobs))
    as [summary failedJob].
  cbn [fst snd] in *. subst summary failedJob.
  unfold fetch_failure, bind, call, ret.
  destruct (find Job.Failed (JobsResponse.Jobs jobs)) as [job|].
  - destruct (GetJobLogs w h1 owner repo (Job.ID job)) as [logs err].
    assert (Hh2 : api_calls (h1 ++ [ev_GetJobLogs owner repo (Job.ID job)])
                  = api_calls h
                    ++ ev_ListJobs owner repo (WorkflowRun.ID run)
                       :: [ev_GetJobLogs owner repo (Job.ID job)]).
    { rewrite api_calls_app, Hh1, <- app_assoc. reflexivity. }
    destruct (is_nil err).
    + pose proof (findBuildFailure_lines logs numOutputLines) as Hf.
      destruct (findBuildFailure logs numOutputLines) as [failure|];
        [|discriminate Hf].
      rewrite slice_from_tail. cbn [fst snd].
      eexists. eexists. split; [reflexivity|]. split; [exact Hh2|].
      right. exists job. repeat split.
    + rewrite slice_from_tail. cbn [fst snd].
      eexists. eexists. split; [reflexivity|]. split; [exact Hh2|].
      right. exists job. repeat split.
  - rewrite slice_from_tail. cbn [fst snd].
    eexists. exists []. split; [reflexivity|]. split; [exact Hh1|].
    left. reflexivity.
Qed.

(** X5.  [BuildSummary] never panics: it always returns data, which
    starts with a newline.  It sends one request for the jobs of the run,
    and after it at most one request for a log: that of the first failed
    job of the listing, and only when the listing succeeded.  When the
    listing fails the data is the text of the error and nothing else. *)
Theorem BuildSummary_requests (w : World) (owner repo : string)
        (run : WorkflowRun.t) (numOutputLines : Z) (h : history) :
  let listing := ListJobs w h owner repo (WorkflowRun.ID run) in
  let result := BuildSummary w owner repo run numOutputLines h in
  (exists data, fst result = Some (nl :: data)) /\
  (exists rest,
      api_calls (snd result)
      = api_calls h ++ ev_ListJobs owner repo (WorkflowRun.ID run) :: rest /\
      match find Job.Failed (JobsResponse.Jobs (fst listing)) with
      | Some job =>
          rest = [] \/
          (snd listing = nil_error /\
           rest = [ev_GetJobLogs owner repo (Job.ID job)])
      | None => rest = []
      end) /\
  (snd listing <> nil_error ->
   fst result
   = Some ([nl] ++ B "Error fetching jobs: " ++ B (Error w (snd listing))
                ++ [nl]) /\
   api_calls (snd result)
   = api_calls h ++ [ev_ListJobs owner repo (WorkflowRun.ID run)]).
Proof.
  intros listing result. subst listing result.
  destruct (BuildSummary_runs w owner repo run numOutputLines h)
    as (data & rest & Hdata & Hcalls & Hrest).
  split; [eauto|]. split.
  - exists rest. split; [exact Hcalls|].
    destruct Hrest as [->|(job & -> & Hnil & ->)]; [|right; now split].
    destruct (find Job.Failed _); [left|]; reflexivity.
  - intros Herr. unfold BuildSummary, bind, call, ret in *.
    destruct (ListJobs w h owner repo (WorkflowRun.ID run)) as [jobs err].
    cbn [snd] in Herr.
    destruct err; [congruence| | | | |]; cbn [is_nil negb fst snd];
      (split; [reflexivity | api_simpl]).
Qed.

(** X6.  A line count of zero or less gives no excerpt: the report is the
    table and the line under it, whatever the log of the failed job
    holds. *)
Theorem BuildSummary_without_lines (w : World) (owner repo : string)
        (run : WorkflowRun.t) (numOutputLines : Z) (h : history)
        (jobs : JobsResponse.t) :
  numOutputLines <= 0 ->
  ListJobs w h owner repo (WorkflowRun.ID run) = (jobs, nil_error) ->
  let h1 := h ++ [ev_ListJobs owner repo (WorkflowRun.ID run)] in
  let summary :=
    fst (buildJobsSummary (IsTerminal w h1) (JobsResponse.Jobs jobs)) in
  fst (BuildSummary w owner repo run numOutputLines h)
  = Some (summary ++ [nl] ++ rule summary).
Proof.
  intros Hn Hjobs h1 summary.
  unfold BuildSummary, bind, call, isatty, ret. rewrite Hjobs.
  cbn [is_nil negb]. fold h1.
  destruct (buildJobsSummary_head (IsTerminal w h1) (JobsResponse.Jobs jobs))
    as [table Htable].
  fold summary in Htable. subst summary.
  destruct (buildJobsSummary (IsTerminal w h1) (JobsResponse.Jobs jobs))
    as [summary failedJob].
  cbn [fst] in *. subst summary.
  assert (Hfailure : forall h2,
             exists h3,
               fetch_failure w owner repo failedJob numOutputLines h2
               = (Some [], h3)).
  { intros h2. unfold fetch_failure, bind, call, ret.
    destruct failedJob as [job|]; [|eauto].
    destruct (GetJobLogs w h2 owner repo (Job.ID job)) as [logs err].
    destruct (is_nil err); [|eauto].
    rewrite (findBuildFailure_nonpositive logs numOutputLines Hn). eauto. }
  destruct (Hfailure h1) as [h3 ->].
  rewrite slice_from_tail. cbn [fst]. unfold buf2, rule.
  cbn. now rewrite app_nil_r.
Qed.

End ReportMore.

Lemma BuildSummary_without_lines_witness :
  fst (client.BuildSummary more.log_fetched "kevinburke" "github-actions"
                           scenario.failed_run 0 [])
  = Some ([nl] ++ B "test 1s" ++ [nl] ++ [nl] ++ B "=======").
Proof.
  apply (BuildSummary_without_lines
           more.log_fetched "kevinburke" "github-actions"
           scenario.failed_run 0 []
           (lib.JobsResponse.mk 1 [summary.job "test" "failure"])).
  - lia.
  - reflexivity.
Defined.

(** ** Durations of jobs and of the build *)

Section DurationMore.

Import time io lib main.

(** Away from the ends of the range, rounding to a unit gives the
    nearest multiple of the unit. *)
Lemma Round_multiple (d m : Duration) :
  0 < m < 2 ^ 62 ->
  minDuration + m <= d <= maxDuration - m ->
  (exists k, Round d m = k * m) /\ 2 * Z.abs (Round d m - d) <= m.
Proof.
  intros Hm Hd. unfold Round, minDuration, maxDuration in *.
  destruct (Z.leb_spec m 0) as [|_]; [lia|].
  pose proof (Z.quot_rem' d m) as Hq.
  destruct (Z.ltb_spec d 0) as [Hneg|Hpos].
  - pose proof (Z.rem_bound_abs d m ltac:(lia)) as Hr.
    pose proof (Z.rem_nonpos d m ltac:(lia) ltac:(lia)) as Hr'.
    rewrite lessThanHalf_small by lia.
    destruct (Z.ltb_spec (- Z.rem d m + - Z.rem d m) m).
    + rewrite wrap64_small by lia. split; [|lia].
      exists (Z.quot d m). lia.
    + rewrite wrap64_small by lia.
      destruct (Z.ltb_spec (d - m + - Z.rem d m) d); [|lia].
      split; [|lia]. exists (Z.quot d m - 1). lia.
  - pose proof (Z.rem_bound_pos d m ltac:(lia) ltac:(lia)) as Hr.
    rewrite lessThanHalf_small by lia.
    destruct (Z.ltb_spec (Z.rem d m + Z.rem d m) m).
    + rewrite wrap64_small by lia. split; [|lia].
      exists (Z.quot d m). lia.
    + rewrite wrap64_small by lia.
      destruct (Z.ltb_spec d (d + m - Z.rem d m)); [|lia].
      split; [|lia]. exists (Z.quot d m + 1). lia.
Qed.

(** X7.  The duration shown for a job is zero when a stamp is missing;
    otherwise it is the time from start to completion rounded to the
    nearest second when that time is over a minute, and to the nearest
    hundredth of a second when it is not. *)
Theorem job_duration_rounded (job : Job.t) :
  (Job.StartedAt job = None \/ Job.CompletedAt job = None ->
   job_duration job = 0) /\
  (forall started completed,
      Job.StartedAt job = Some started ->
      Job.CompletedAt job = Some completed ->
      minDuration + Second <= completed - started <= maxDuration - Second ->
      let unit :=
        if Minute <? completed - started then Second
        else 10 * Millisecond in
      (exists k, job_duration job = k * unit) /\
      2 * Z.abs (job_duration job - (completed - started)) <= unit).
Proof.
  unfold job_duration. split.
  - intros [-> | ->]; [reflexivity|].
    destruct (Job.StartedAt job); reflexivity.
  - intros started completed -> -> Hrange. cbv zeta.
    assert (Hs : Second = 1000000000) by reflexivity.
    assert (Hc : 10 * Millisecond = 10000000) by reflexivity.
    rewrite Sub_exact
      by (unfold minDuration, maxDuration in *; rewrite Hs in Hrange; lia).
    destruct (Minute <? completed - started).
    + apply Round_multiple; [rewrite Hs; lia | exact Hrange].
    + apply Round_multiple; [rewrite Hc; lia|].
      unfold minDuration, maxDuration in *. rewrite Hs in Hrange.
      rewrite Hc. lia.
Qed.

Lemma Duration_completed (t t' : Time) (run : WorkflowRun.t) :
  WorkflowRun.IsCompleted run = true ->
  WorkflowRun.Duration t run = WorkflowRun.Duration t' run.
Proof. intros H. unfold WorkflowRun.Duration. now rewrite H. Qed.

Lemma run_Duration_completed (w : World) (run : WorkflowRun.t)
      (h : history) :
  WorkflowRun.IsCompleted run = true ->
  run_Duration w run h = (WorkflowRun.Duration time.zero run, h).
Proof.
  intros H. unfold run_Duration. rewrite H, andb_false_r. reflexivity.
Qed.

Lemma max_duration_completed (w : World) (runs : list WorkflowRun.t) :
  forallb WorkflowRun.IsCompleted runs = true ->
  forall (d : Duration) (h : history),
    max_duration w runs d h
    = (fold_left Z.max (map (WorkflowRun.Duration time.zero) runs) d, h).
Proof.
  induction runs as [|run runs IH]; intros Hall d h; [reflexivity|].
  cbn [forallb] in Hall. apply andb_true_iff in Hall as [Hrun Hall].
  cbn [max_duration map fold_left]. unfold bind.
  rewrite (run_Duration_completed w run h Hrun), (IH Hall).
  f_equal. f_equal.
  destruct (Z.ltb_spec d (WorkflowRun.Duration time.zero run)); lia.
Qed.

Lemma fold_max_spec (l : list Z) :
  forall d : Z,
    d <= fold_left Z.max l d /\
    (forall x, In x l -> x <= fold_left Z.max l d) /\
    (fold_left Z.max l d = d \/ In (fold_left Z.max l d) l).
Proof.
  induction l as [|x l IH]; intros d; cbn [fold_left In].
  - split; [lia|]. split; [tauto|]. now left.
  - destruct (IH (Z.max d x)) as (Hle & Hall & Hin).
    split; [lia|]. split.
    + intros y [<-|Hy]; [lia|now apply Hall].
    + destruct Hin as [Heq|Hin]; [|right; now right].
      rewrite Heq. destruct (Z.max_spec d x) as [[_ ->]|[_ ->]];
        [right; now left | now left].
Qed.

(** X8.  The time a successful build is said to have taken is the longest
    duration among its runs, and zero if that is negative; for runs that
    have all completed the clock is not read to compute it. *)
Theorem max_duration_longest (w : World) (runs : list WorkflowRun.t)
        (h : history) :
  forallb WorkflowRun.IsCompleted runs = true ->
  let total := fst (max_duration w runs 0 h) in
  snd (max_duration w runs 0 h) = h /\
  0 <= total /\
  (forall t run, In run runs -> WorkflowRun.Duration t run <= total) /\
  (total = 0 \/
   exists run, In run runs /\ forall t, total = WorkflowRun.Duration t run).
Proof.
  intros Hall total. subst total.
  rewrite (max_duration_completed w runs Hall 0 h). cbn [fst snd].
  destruct (fold_max_spec (map (WorkflowRun.Duration time.zero) runs) 0)
    as (Hle & Hmax & Hin).
  assert (Hc : forall run, In run runs -> WorkflowRun.IsCompleted run = true)
    by (intros run; now apply (proj1 (forallb_forall _ _) Hall)).
  split; [reflexivity|]. split; [exact Hle|]. split.
  - intros t run Hrun.
    rewrite (Duration_completed t time.zero run (Hc run Hrun)).
    apply Hmax. now apply in_map.
  - destruct Hin as [Heq|Hin]; [now left|]. right.
    apply in_map_iff in Hin as (run & Heq & Hrun).
    exists run. split; [exact Hrun|]. intros t.
    rewrite <- Heq. apply Duration_completed. now apply Hc.
Qed.

End DurationMore.

Lemma max_duration_longest_witness :
  fst (main.max_duration scenario.build_succeeds
                         [scenario.succeeded_run; more.skipped_run] 0 [])
  = 300 * time.Second.
Proof.
  destruct (max_duration_longest
              scenario.build_succeeds
              [scenario.succeeded_run; more.skipped_run] [] eq_refl)
    as (_ & _ & Hmax & [H0|(run & Hin & Hrun)]).
  - specialize (Hmax 0 scenario.succeeded_run (or_introl eq_refl)).
    rewrite H0 in Hmax. vm_compute in Hmax. now elim Hmax.
  - destruct Hin as [<-|[<-|[]]].
    + exact (Hrun 0).
    + specialize (Hmax 0 scenario.succeeded_run (or_introl eq_refl)).
      rewrite (Hrun 0) in Hmax. vm_compute in Hmax. now elim Hmax.
Defined.

(** ** Sessions: how [doWait] ends, and when it does not *)

Section SessionMore.

Import time io lib client main session waiting.

Variable w : World.
Variable remote : RemoteURL.
Variable branch : string.
Variable numOutputLines : Z.

Ltac api_simpl :=
  unfold api_calls; rewrite ?filter_app; cbn [filter is_api app];
  rewrite ?app_nil_r; try reflexivity.

Lemma inspect_spec (runs : list WorkflowRun.t) :
  forall allComplete anyFailed failedRun,
    inspect runs allComplete anyFailed failedRun
    = (allComplete && forallb WorkflowRun.IsCompleted runs,
       anyFailed || existsb WorkflowRun.IsFailed runs,
       match failedRun with
       | Some run => Some run
       | None => find WorkflowRun.IsFailed runs
       end).
Proof.
  induction runs as [|run runs IH]; intros a f fr.
  - cbn. rewrite andb_true_r, orb_false_r. now destruct fr.
  - cbn [inspect forallb existsb find].
    destruct (WorkflowRun.IsCompleted run), (WorkflowRun.IsFailed run),
      a, f, fr; cbn [negb is_None andb orb]; rewrite IH;
      cbn [andb orb]; reflexivity.
Qed.

Lemma existsb_find {A : Type} (f : A -> bool) (l : list A) :
  existsb f l = negb (is_None (find f l)).
Proof.
  induction l as [|a l IH]; [reflexivity|].
  cbn [existsb find]. now destruct (f a).
Qed.

Lemma len_nonempty {A : Type} (l : list A) : l <> [] -> (len l =? 0) = false.
Proof.
  intros Hne. destruct l as [|a l]; [congruence|].
  rewrite len_cons. pose proof (len_nonneg l).
  destruct (Z.eqb_spec (1 + len l) 0); [lia|reflexivity].
Qed.

(** A pass that finds every run completed goes to the report of the
    failure of the first failed run, or to the report of success when no
    run failed. *)
Lemma cycle_complete (tip : string) (startTime lp : Time) (h : history)
      (runs : list WorkflowRun.t) :
  FindWorkflowRunsForCommit w h (Path remote) (RepoName remote) tip
  = (runs, nil_error) ->
  runs <> [] ->
  forallb WorkflowRun.IsCompleted runs = true ->
  cycle w remote branch tip numOutputLines startTime lp h
  = let h2 :=
      (h ++ [ev_FindWorkflowRunsForCommit (Path remote) (RepoName remote) tip])
        ++ [ev_Now] in
    match find WorkflowRun.IsFailed runs with
    | Some failedRun =>
        report_failure w (Path remote) (RepoName remote) branch failedRun
                       numOutputLines h2
    | None => report_success w remote branch runs h2
    end.
Proof.
  intros Hpoll Hne Hall. unfold cycle, bind, now, call. rewrite Hpoll.
  cbn [is_nil negb]. rewrite (len_nonempty runs Hne), inspect_spec, Hall.
  cbn [andb orb]. rewrite existsb_find.
  now destruct (find WorkflowRun.IsFailed runs).
Qed.

Lemma repeat_snoc {A : Type} (a : A) (k : nat) :
  repeat a k ++ [a] = repeat a (S k).
Proof.
  change (S k) with (1 + k)%nat. now rewrite Nat.add_comm, repeat_app.
Qed.

(** The result of the pass that ends a session is the result of
    [doWait], whatever fuel is left. *)
Lemma doWait_stops (k : nat) (tip : string) (startTime lp : Time)
      (h h' : history) (o : outcome) :
  at_poll w remote branch numOutputLines k tip startTime lp h ->
  cycle w remote branch tip numOutputLines startTime lp h = (Stop o, h') ->
  forall fuel,
    (k < fuel)%nat ->
    doWait fuel w remote branch numOutputLines [] = (Some o, h').
Proof.
  intros Hat Hc fuel Hfuel.
  destruct (at_poll_sound _ _ _ _ _ _ _ _ _ Hat) as [_ Hrun].
  replace fuel with (k + S (fuel - S k))%nat by lia.
  rewrite Hrun. cbn [poll]. unfold bind. now rewrite Hc.
Qed.

(** X9.  Runs that have all completed and of which none failed end the
    session like a success, whatever their conclusions are (skipped,
    neutral, none at all): [doWait] returns nil, and apart from its polls
    it only lists the jobs of each run. *)
Theorem doWait_complete_without_failure (k : nat) (tip : string)
        (startTime lastPrintedAt : Time) (h : history)
        (runs : list WorkflowRun.t) :
  at_poll w remote branch numOutputLines k tip startTime lastPrintedAt h ->
  FindWorkflowRunsForCommit w h (Path remote) (RepoName remote) tip
  = (runs, nil_error) ->
  runs <> [] ->
  forallb WorkflowRun.IsCompleted runs = true ->
  existsb WorkflowRun.IsFailed runs = false ->
  exists h',
    (forall fuel,
        (k < fuel)%nat ->
        doWait fuel w remote branch numOutputLines []
        = (Some (Returns nil_error), h')) /\
    api_calls h'
    = repeat (ev_FindWorkflowRunsForCommit (Path remote) (RepoName remote) tip)
             (S k)
      ++ map (fun run =>
                ev_ListJobs (Path remote) (RepoName remote)
                            (WorkflowRun.ID run)) runs.
Proof.
  intros Hat Hpoll Hne Hall Hnone.
  pose proof (cycle_complete tip startTime lastPrintedAt h runs Hpoll Hne Hall)
    as Hc.
  rewrite existsb_find in Hnone.
  destruct (find WorkflowRun.IsFailed runs); [discriminate Hnone|].
  cbv zeta in Hc.
  match type of Hc with
  | _ = report_success w remote branch runs ?h2 =>
      destruct (report_success_stops w remote branch runs h2) as [Hfst Hapi];
      destruct (report_success w remote branch runs h2) as [c h'] eqn:Hr
  end.
  cbn [fst snd] in *. subst c. exists h'. split.
  - now apply (doWait_stops k tip startTime lastPrintedAt h).
  - destruct (at_poll_sound _ _ _ _ _ _ _ _ _ Hat) as [Hcalls _].
    rewrite <- repeat_snoc, Hapi, !api_calls_app, Hcalls. cbn.
    rewrite app_nil_r, <- !app_assoc. reflexivity.
Qed.

(** The report of a failure writes the summary, the address of the run
    and the notification, and ends the session with the error of a failed
    build. *)
Lemma report_failure_result (owner repo : string)
      (failedRun : WorkflowRun.t) (h : history) :
  exists data h3,
    BuildSummary w owner repo failedRun numOutputLines h
    = (Some (nl :: data), h3) /\
    report_failure w owner repo branch failedRun numOutputLines h
    = (Stop (Returns (errors_New ("Build on " ++ branch ++ " failed!")%string)),
       h3 ++ [ev_Write (nl :: data);
              ev_Printf "\nURL:\n%s\n" [arg_s (WorkflowRun.HTMLURL failedRun)];
              ev_Display ("github-actions (" ++ repo ++ ")")%string
                         "build failed"]).
Proof.
  destruct (BuildSummary_runs w owner repo failedRun numOutputLines h)
    as (data & rest & Hdata & _).
  destruct (BuildSummary w owner repo failedRun numOutputLines h)
    as [d h3] eqn:E.
  cbn [fst] in Hdata. subst d. exists data, h3. split; [reflexivity|].
  unfold report_failure, bind. rewrite E. unfold emit, call, ret.
  rewrite <- !app_assoc. reflexivity.
Qed.

(** X10.  When every run has completed and one of them failed, [doWait]
    builds the summary of the first failed run, writes it, shows the
    notification and returns the error of a failed build.  After its
    polls the session lists the jobs of that run and fetches at most one
    log. *)
Theorem doWait_failure (k : nat) (tip : string)
        (startTime lastPrintedAt : Time) (h : history)
        (runs : list WorkflowRun.t) (failedRun : WorkflowRun.t) :
  at_poll w remote branch numOutputLines k tip startTime lastPrintedAt h ->
  FindWorkflowRunsForCommit w h (Path remote) (RepoName remote) tip
  = (runs, nil_error) ->
  forallb WorkflowRun.IsCompleted runs = true ->
  find WorkflowRun.IsFailed runs = Some failedRun ->
  let h2 :=
    h ++ [ev_FindWorkflowRunsForCommit (Path remote) (RepoName remote) tip;
          ev_Now] in
  exists data h3 rest,
    BuildSummary w (Path remote) (RepoName remote) failedRun numOutputLines h2
    = (Some data, h3) /\
    (forall fuel,
        (k < fuel)%nat ->
        doWait fuel w remote branch numOutputLines []
        = (Some (Returns
                   (errors_New ("Build on " ++ branch ++ " failed!")%string)),
           h3 ++ [ev_Write data;
                  ev_Printf "\nURL:\n%s\n"
                            [arg_s (WorkflowRun.HTMLURL failedRun)];
                  ev_Display
                    ("github-actions (" ++ RepoName remote ++ ")")%string
                    "build failed"])) /\
    api_calls h3
    = repeat (ev_FindWorkflowRunsForCommit (Path remote) (RepoName remote) tip)
             (S k)
      ++ ev_ListJobs (Path remote) (RepoName remote) (WorkflowRun.ID failedRun)
         :: rest /\
    (rest = [] \/
     exists job,
       rest = [ev_GetJobLogs (Path remote) (RepoName remote) (Job.ID job)]).
Proof.
  intros Hat Hpoll Hall Hfailed h2.
  assert (Hne : runs <> []) by (intros ->; discriminate Hfailed).
  pose proof (cycle_complete tip startTime lastPrintedAt h runs Hpoll Hne Hall)
    as Hc.
  rewrite Hfailed in Hc. cbv zeta in Hc.
  replace ((h ++ [ev_FindWorkflowRunsForCommit (Path remote) (RepoName remote)
                                               tip]) ++ [ev_Now])
    with h2 in Hc by (unfold h2; now rewrite <- app_assoc).
  destruct (report_failure_result (Path remote) (RepoName remote) failedRun h2)
    as (data & h3 & Hsummary & Hreport).
  destruct (BuildSummary_runs w (Path remote) (RepoName remote) failedRun
                              numOutputLines h2)
    as (data' & rest & _ & Hcalls & Hrest).
  rewrite Hsummary in Hcalls. cbn [snd] in Hcalls.
  exists (nl :: data), h3, rest. split; [exact Hsummary|]. split; [|split].
  - intros fuel Hfuel. rewrite Hreport in Hc.
    now apply (doWait_stops k tip startTime lastPrintedAt h).
  - destruct (at_poll_sound _ _ _ _ _ _ _ _ _ Hat) as [Hpolls _].
    rewrite Hcalls. unfold h2. rewrite api_calls_app, Hpolls.
    rewrite <- repeat_snoc. cbn. rewrite <- !app_assoc. reflexivity.
  - destruct Hrest as [->|(job & -> & _)]; [now left|right; eauto].
Qed.

(** A pass that does not end in a report sends the poll and then waits,
    unless the poll fails for good or the commit identifier is too short
    to be printed. *)
Lemma run_Duration_extends (run : WorkflowRun.t) (h : history) :
  exists more, snd (run_Duration w run h) = h ++ more.
Proof.
  unfold run_Duration, bind, now, call, ret.
  destruct (negb (is_None (WorkflowRun.RunStartedAt run))
            && negb (WorkflowRun.IsCompleted run)); cbn [snd].
  - eauto.
  - exists []. now rewrite app_nil_r.
Qed.

Lemma print_status_extends (runs : list WorkflowRun.t) :
  forall h : history, exists more, snd (print_status w runs h) = h ++ more.
Proof.
  induction runs as [|run runs IH]; intros h.
  - exists []. cbn. now rewrite app_nil_r.
  - cbn [print_status]. unfold bind at 1.
    destruct (run_Duration_extends run h) as [more1 H1].
    destruct (run_Duration w run h) as [d h1]. cbn [snd] in H1. subst h1.
    unfold bind, emit, call.
    match goal with
    | |- context [print_status w runs ?h2] =>
        destruct (IH h2) as [more2 H2]
    end.
    rewrite H2. exists (more1 ++ [ev_Printf "Workflow %q %s (%s elapsed)\n"
                      [arg_s (WorkflowRun.Name run);
                       arg_s match WorkflowRun.Conclusion run with
                             | Some c => if WorkflowRun.IsCompleted run then c
                                         else WorkflowRun.Status run
                             | None => WorkflowRun.Status run
                             end;
                       arg_s (string_of_list_byte (String d))]] ++ more2).
    now rewrite <- !app_assoc.
Qed.

(** A pass that waits sends its poll and then stands at the [select],
    with a history that continues the one it started from. *)
Lemma cycle_waits (tip : string) (startTime lp : Time) (h : history) :
  waits w remote tip h ->
  exists timer lp' more,
    cycle w remote branch tip numOutputLines startTime lp h
    = wait w timer lp' (h ++ more) /\
    api_calls (h ++ more)
    = api_calls h
      ++ [ev_FindWorkflowRunsForCommit (Path remote) (RepoName remote) tip].
Proof.
  unfold waits, cycle. unfold bind at 1, call at 1.
  destruct (FindWorkflowRunsForCommit w h (Path remote) (RepoName remote) tip)
    as [runs err].
  set (request := ev_FindWorkflowRunsForCommit (Path remote) (RepoName remote)
                                               tip).
  intros [[Herr Hhttp]|[(-> & -> & Htip)|(-> & Hne & Hrunning)]].
  - destruct err; [congruence| | | | |]; cbn [is_nil negb]; rewrite Hhttp;
      unfold retry, bind, emit, now, call;
      (eexists; eexists; eexists; split;
       [rewrite <- !app_assoc; reflexivity | api_simpl]).
  - cbn [is_nil negb len List.length Z.of_nat Z.eqb]. unfold no_runs.
    destruct (Nat.ltb_spec (String.length tip) 8) as [|_]; [lia|].
    unfold bind, emit, now, call.
    eexists; eexists; eexists; split;
      [rewrite <- !app_assoc; reflexivity | api_simpl].
  - cbn [is_nil negb]. rewrite (len_nonempty runs Hne), inspect_spec, Hrunning.
    cbn [andb]. unfold bind at 1, now at 1, call at 1.
    unfold still_running. unfold bind at 1, now at 1, call at 1.
    unfold bind at 1.
    match goal with
    | |- context [shouldPrint ?t lp ?e] => destruct (shouldPrint t lp e)
    end.
    + unfold bind at 1.
      match goal with
      | |- context [print_status w runs ?h2] =>
          destruct (print_status_extends runs h2) as [more Hmore];
          pose proof (print_status_api w runs h2) as Hapi;
          destruct (print_status w runs h2) as [[] h3]
      end.
      cbn [snd] in Hmore, Hapi. unfold now, call.
      eexists; eexists; eexists; split.
      * rewrite Hmore, <- !app_assoc. reflexivity.
      * rewrite Hmore, (api_calls_app _ more) in Hapi.
        rewrite <- app_nil_r in Hapi. apply app_inv_head in Hapi.
        rewrite !api_calls_app, Hapi. cbn. rewrite ?app_nil_r. reflexivity.
    + unfold ret.
      eexists; eexists; eexists; split;
        [rewrite <- !app_assoc; reflexivity | api_simpl].
Qed.

Lemma wait_result (timer : Duration) (lp : Time) (h : history) :
  wait w timer lp h
  = (match Done w h with
     | Some ctx_Err => Stop (Returns ctx_Err)
     | None => Continue lp
     end, h ++ [ev_select timer]).
Proof. unfold wait, bind, call, ret. now destruct (Done w h). Qed.

Lemma prologue_result (tip : string) :
  Tip w [] branch = (tip, nil_error) ->
  exists startTime h,
    prologue w branch [] = (inr (tip, startTime), h).
Proof.
  intros Htip. unfold prologue, bind, call, emit, now, ret. rewrite Htip.
  cbn [is_nil negb]. eexists. eexists. reflexivity.
Qed.

(** X11.  [doWait] has no limit of its own: as long as every poll fails
    with an error that is retried, finds no run or finds a run that has
    not completed, and the context is not cancelled, the call has not
    returned after any number of passes, and all it requested is one poll
    per pass. *)
Theorem doWait_never_gives_up (tip : string) :
  Tip w [] branch = (tip, nil_error) ->
  (forall h, waits w remote tip h) ->
  (forall h, Done w h = None) ->
  forall fuel,
    fst (doWait fuel w remote branch numOutputLines []) = None /\
    api_calls (snd (doWait fuel w remote branch numOutputLines []))
    = repeat (ev_FindWorkflowRunsForCommit (Path remote) (RepoName remote) tip)
             fuel.
Proof.
  intros Htip Hwaits Hdone fuel.
  destruct (prologue_result tip Htip) as (startTime & h0 & Hp).
  assert (Hreach : exists lp h,
             at_poll w remote branch numOutputLines fuel tip startTime lp h).
  { induction fuel as [|k (lp & h & Hat)].
    - exists time.zero, h0. now apply at_first_poll.
    - destruct (cycle_waits tip startTime lp h (Hwaits h))
        as (timer & lp' & more & Hc & _).
      rewrite wait_result, Hdone in Hc.
      eexists. eexists. eapply at_next_poll; [exact Hat | exact Hc]. }
  destruct Hreach as (lp & h & Hat).
  destruct (at_poll_sound _ _ _ _ _ _ _ _ _ Hat) as [Hcalls Hrun].
  specialize (Hrun 0%nat). rewrite Nat.add_0_r in Hrun. rewrite Hrun.
  cbn [poll]. unfold ret. cbn [fst snd]. split; [reflexivity | exact Hcalls].
Qed.

(** X12.  A cancelled context ends the session at the next wait:
    [doWait] returns the error of the context, having sent only its
    polls. *)
Theorem doWait_cancelled (k : nat) (tip : string)
        (startTime lastPrintedAt : Time) (h : history) (ctx_Err : error) :
  at_poll w remote branch numOutputLines k tip startTime lastPrintedAt h ->
  waits w remote tip h ->
  (forall more, Done w (h ++ more) = Some ctx_Err) ->
  exists h',
    (forall fuel,
        (k < fuel)%nat ->
        doWait fuel w remote branch numOutputLines []
        = (Some (Returns ctx_Err), h')) /\
    api_calls h'
    = repeat (ev_FindWorkflowRunsForCommit (Path remote) (RepoName remote) tip)
             (S k).
Proof.
  intros Hat Hwaits Hdone.
  destruct (cycle_waits tip startTime lastPrintedAt h Hwaits)
    as (timer & lp' & more & Hc & Hcalls).
  rewrite wait_result, Hdone in Hc.
  eexists. split.
  - intros fuel Hfuel.
    now apply (doWait_stops k tip startTime lastPrintedAt h _ _ Hat Hc).
  - destruct (at_poll_sound _ _ _ _ _ _ _ _ _ Hat) as [Hpolls _].
    rewrite api_calls_app, Hcalls, Hpolls. cbn. rewrite app_nil_r.
    apply repeat_snoc.
Qed.

(** X13.  An error of a poll that is not retried is returned as it is,
    at once: nothing is printed and nothing more is requested. *)
Theorem doWait_fatal_error (k : nat) (tip : string)
        (startTime lastPrintedAt : Time) (h : history)
        (runs : list WorkflowRun.t) (err : error) :
  at_poll w remote branch numOutputLines k tip startTime lastPrintedAt h ->
  FindWorkflowRunsForCommit w h (Path remote) (RepoName remote) tip
  = (runs, err) ->
  err <> nil_error ->
  isHttpError err = false ->
  forall fuel,
    (k < fuel)%nat ->
    doWait fuel w remote branch numOutputLines []
    = (Some (Returns err),
       h ++ [ev_FindWorkflowRunsForCommit (Path remote) (RepoName remote)
                                          tip]).
Proof.
  intros Hat Hpoll Herr Hhttp.
  apply (doWait_stops k tip startTime lastPrintedAt h _ _ Hat).
  unfold cycle, bind, call, ret. rewrite Hpoll, Hhttp.
  destruct err; [congruence| | | | |]; reflexivity.
Qed.

(** X14.  The message for a poll without runs prints the first 8 bytes of
    the commit identifier: with a shorter identifier [doWait] panics at
    the first poll that finds no run. *)
Theorem doWait_short_tip (k : nat) (tip : string)
        (startTime lastPrintedAt : Time) (h : history) :
  at_poll w remote branch numOutputLines k tip startTime lastPrintedAt h ->
  FindWorkflowRunsForCommit w h (Path remote) (RepoName remote) tip
  = ([], nil_error) ->
  (String.length tip < 8)%nat ->
  forall fuel,
    (k < fuel)%nat ->
    doWait fuel w remote branch numOutputLines []
    = (Some Panics,
       h ++ [ev_FindWorkflowRunsForCommit (Path remote) (RepoName remote)
                                          tip]).
Proof.
  intros Hat Hpoll Hshort.
  apply (doWait_stops k tip startTime lastPrintedAt h _ _ Hat).
  unfold cycle, bind, call, ret. rewrite Hpoll. cbn [is_nil negb len].
  cbn [List.length Z.of_nat Z.eqb]. unfold no_runs.
  destruct (Nat.ltb_spec (String.length tip) 8); [reflexivity|lia].
Qed.

Lemma still_running_result (runs : list WorkflowRun.t) (lp : Time)
      (elapsed : Duration) (h : history) :
  match fst (still_running w runs lp elapsed h) with
  | Continue _ | Stop (Returns _) => True
  | Stop Panics => False
  end.
Proof.
  unfold still_running. unfold bind at 1, now at 1, call at 1.
  unfold bind at 1.
  match goal with
  | |- context [if ?c then _ else _] => destruct c
  end.
  - unfold bind at 1. destruct (print_status w runs _) as [[] h1].
    unfold now, call. rewrite wait_result. cbn [fst].
    now destruct (Done w _).
  - unfold ret. rewrite wait_result. cbn [fst]. now destruct (Done w _).
Qed.

(** What one pass requests: its poll and, when it ends the session,
    what the report needs. *)
Lemma cycle_requests (tip : string) (startTime lp : Time) (h h' : history)
      (c : control) :
  cycle w remote branch tip numOutputLines startTime lp h = (c, h') ->
  exists rest,
    api_calls h'
    = api_calls h
      ++ ev_FindWorkflowRunsForCommit (Path remote) (RepoName remote) tip
         :: rest /\
    match c with
    | Continue _ => rest = []
    | Stop o => reported remote branch (Some o) rest
    end.
Proof.
  unfold cycle. unfold bind at 1, call at 1.
  destruct (FindWorkflowRunsForCommit w h (Path remote) (RepoName remote) tip)
    as [runs err].
  set (request := ev_FindWorkflowRunsForCommit (Path remote) (RepoName remote)
                                               tip).
  assert (Hh1 : api_calls (h ++ [request]) = api_calls h ++ [request])
    by api_simpl.
  destruct (negb (is_nil err)).
  - destruct (isHttpError err).
    + unfold retry, bind, emit, now, call. rewrite wait_result.
      intros [= <- <-]. exists []. split; [api_simpl|].
      destruct (Done w _); [now left | reflexivity].
    + unfold ret. intros [= <- <-]. exists [].
      split; [exact Hh1 | now left].
  - destruct (len runs =? 0).
    + unfold no_runs. destruct (String.length tip <? 8)%nat.
      * unfold ret. intros [= <- <-]. exists [].
        split; [exact Hh1|reflexivity].
      * unfold bind, emit, now, call. rewrite wait_result.
        intros [= <- <-]. exists []. split; [api_simpl|].
        destruct (Done w _); [now left | reflexivity].
    + destruct (inspect runs true false None)
        as [[allComplete anyFailed] failedRun].
      unfold bind at 1, now at 1, call at 1.
      set (h2 := (h ++ [request]) ++ [ev_Now]).
      assert (Hh2 : api_calls h2 = api_calls h ++ [request])
        by (unfold h2; api_simpl).
      assert (Hsuccess :
                report_success w remote branch runs h2 = (c, h') ->
                exists rest,
                  api_calls h' = api_calls h ++ request :: rest /\
                  match c with
                  | Continue _ => rest = []
                  | Stop o => reported remote branch (Some o) rest
                  end).
      { intros Hr.
        destruct (report_success_stops w remote branch runs h2)
          as [Hfst Hsnd].
        rewrite Hr in Hfst, Hsnd. cbn [fst snd] in *. subst c.
        eexists. split.
        - rewrite Hsnd, Hh2, <- app_assoc. reflexivity.
        - right. left. split; [reflexivity|]. now exists runs. }
      destruct allComplete.
      * destruct anyFailed, failedRun as [failedRun|]; try exact Hsuccess.
        destruct (report_failure_result (Path remote) (RepoName remote)
                                        failedRun h2)
          as (data & h3 & Hsummary & ->).
        destruct (BuildSummary_runs w (Path remote) (RepoName remote)
                                    failedRun numOutputLines h2)
          as (data' & rest & _ & Hcalls & Hrest).
        rewrite Hsummary in Hcalls. cbn [fst snd] in *.
        intros [= <- <-]. eexists. split.
        -- rewrite api_calls_app, Hcalls, Hh2. cbn.
           rewrite app_nil_r, <- app_assoc. reflexivity.
        -- right. right. split; [reflexivity|].
           exists failedRun, rest. split; [reflexivity|].
           destruct Hrest as [->|(job & -> & _)]; [now left|right; eauto].
      * intros Hr.
        match type of Hr with
        | still_running w runs lp ?e h2 = _ =>
            pose proof (still_running_result runs lp e h2) as Hfst;
            pose proof (still_running_api w runs lp e h2) as Hsnd
        end.
        rewrite Hr in Hfst, Hsnd. cbn [fst snd] in *.
        exists []. split; [now rewrite Hsnd|].
        destruct c as [|[|]]; [reflexivity | now left | contradiction].
Qed.

Lemma poll_requests (fuel : nat) :
  forall (tip : string) (startTime lp : Time) (h : history),
  exists n rest,
    (n <= fuel)%nat /\
    api_calls (snd (poll fuel w remote branch tip numOutputLines startTime
                         lp h))
    = api_calls h
      ++ repeat (ev_FindWorkflowRunsForCommit (Path remote) (RepoName remote)
                                              tip) n
      ++ rest /\
    reported remote branch
             (fst (poll fuel w remote branch tip numOutputLines startTime
                        lp h))
             rest.
Proof.
  induction fuel as [|fuel IH]; intros tip startTime lp h.
  - exists 0%nat, []. cbn. rewrite app_nil_r. now repeat split.
  - cbn [poll]. unfold bind.
    destruct (cycle w remote branch tip numOutputLines startTime lp h)
      as [c h'] eqn:Hc.
    destruct (cycle_requests tip startTime lp h h' c Hc)
      as (rest & Hcalls & Hshape).
    destruct c as [lp'|o].
    + subst rest.
      destruct (IH tip startTime lp' h') as (n & rest & Hn & Hcalls' & Hshape').
      exists (S n), rest. split; [lia|]. split; [|exact Hshape'].
      rewrite Hcalls', Hcalls. cbn. rewrite <- app_assoc. reflexivity.
    + exists 1%nat, rest. split; [lia|]. unfold ret. cbn [fst snd].
      split; [exact Hcalls | exact Hshape].
Qed.

(** X15.  The requests of a whole session of [doWait], however it ends
    and however long it runs: its polls, all for the commit that
    [git.Tip] named, and then what the report asked for.  The jobs are
    listed only once every run has completed; a log is fetched at most
    once in a session, as its last request, and only when [doWait]
    returns the error of a failed build. *)
Theorem doWait_requests (fuel : nat) :
  let session := doWait fuel w remote branch numOutputLines [] in
  exists n rest,
    (n <= fuel)%nat /\
    api_calls (snd session)
    = repeat (ev_FindWorkflowRunsForCommit (Path remote) (RepoName remote)
                                           (fst (Tip w [] branch))) n
      ++ rest /\
    reported remote branch (fst session) rest.
Proof.
  intros session. subst session. unfold doWait, bind.
  pose proof (prologue_api w branch []) as Hp.
  assert (Htip : forall tip startTime h,
             prologue w branch [] = (inr (tip, startTime), h) ->
             tip = fst (Tip w [] branch)).
  { unfold prologue, bind, call, emit, now, ret.
    destruct (Tip w [] branch) as [tip0 err].
    destruct (negb (is_nil err)); [discriminate|].
    intros tip startTime h [= <- _ _]. reflexivity. }
  destruct (prologue w branch []) as [[err|[tip startTime]] h0].
  - exists 0%nat, []. unfold ret. cbn [fst snd] in *.
    split; [lia|]. split; [exact Hp | now left].
  - rewrite <- (Htip tip startTime h0 eq_refl).
    destruct (poll_requests fuel tip startTime time.zero h0)
      as (n & rest & Hn & Hcalls & Hshape).
    exists n, rest. cbn [snd] in Hp. rewrite Hp in Hcalls.
    split; [exact Hn|]. split; [exact Hcalls | exact Hshape].
Qed.

(** X16.  An error of [git.Tip] is returned before anything is printed or
    requested, by [doWait] and by [doOpen] alike. *)
Theorem Tip_error_returned (tip : string) (err : error)
        (openURL : history -> string -> error) :
  Tip w [] branch = (tip, err) ->
  err <> nil_error ->
  forall fuel,
    doWait fuel w remote branch numOutputLines []
    = (Some (Returns err), [ev_Tip branch]) /\
    open_cmd.doOpen fuel w openURL remote branch []
    = (Some (Returns err), [ev_Tip branch]).
Proof.
  intros Htip Herr fuel.
  unfold doWait, prologue, open_cmd.doOpen, bind, call, ret. rewrite Htip.
  destruct err; [congruence| | | | |]; split; reflexivity.
Qed.

End SessionMore.

Lemma doWait_complete_without_failure_witness :
  fst (main.doWait 1 more.build_skipped scenario.remote "main" 100 [])
  = Some (main.Returns nil_error).
Proof.
  destruct (doWait_complete_without_failure
              more.build_skipped scenario.remote "main" 100 0
              scenario.sha (1000 * time.Second) time.zero more.first_poll
              [more.skipped_run])
    as (h' & Hrun & _).
  - apply session.at_first_poll. reflexivity.
  - reflexivity.
  - discriminate.
  - reflexivity.
  - reflexivity.
  - rewrite (Hrun 1%nat); [reflexivity | lia].
Defined.

Lemma doWait_failure_witness :
  fst (main.doWait 1 more.log_fetched scenario.remote "main" 2 [])
  = Some (main.Returns (errors_New "Build on main failed!")).
Proof.
  destruct (doWait_failure
              more.log_fetched scenario.remote "main" 2 0
              scenario.sha (1000 * time.Second) time.zero more.first_poll
              [scenario.failed_run] scenario.failed_run)
    as (data & h3 & rest & _ & Hrun & _).
  - apply session.at_first_poll. reflexivity.
  - reflexivity.
  - reflexivity.
  - reflexivity.
  - rewrite (Hrun 1%nat); [reflexivity | lia].
Defined.

Lemma doWait_never_gives_up_witness :
  fst (main.doWait 5 more.never_done scenario.remote "main" 100 []) = None /\
  session.api_calls
    (snd (main.doWait 5 more.never_done scenario.remote "main" 100 []))
  = repeat (io.ev_FindWorkflowRunsForCommit
              "kevinburke" "github-actions" scenario.sha) 5.
Proof.
  apply (doWait_never_gives_up
           more.never_done scenario.remote "main" 100 scenario.sha).
  - reflexivity.
  - intros h. right. right.
    split; [reflexivity|]. split; [discriminate | reflexivity].
  - reflexivity.
Defined.

Lemma doWait_cancelled_witness :
  fst (main.doWait 1 more.cancelled scenario.remote "main" 100 [])
  = Some (main.Returns (other_error "context canceled" None None)).
Proof.
  destruct (doWait_cancelled
              more.cancelled scenario.remote "main" 100 0
              scenario.sha (1000 * time.Second) time.zero more.first_poll
              (other_error "context canceled" None None))
    as (h' & Hrun & _).
  - apply session.at_first_poll. reflexivity.
  - left. split; [discriminate | reflexivity].
  - reflexivity.
  - rewrite (Hrun 1%nat); [reflexivity | lia].
Defined.

Lemma doWait_fatal_error_witness :
  main.doWait 1 more.poll_refused scenario.remote "main" 100 []
  = (Some (main.Returns more.unauthorized),
     more.first_poll
       ++ [io.ev_FindWorkflowRunsForCommit
             "kevinburke" "github-actions" scenario.sha]).
Proof.
  apply (doWait_fatal_error
           more.poll_refused scenario.remote "main" 100 0
           scenario.sha (1000 * time.Second) time.zero more.first_poll
           [] more.unauthorized).
  - apply session.at_first_poll. reflexivity.
  - reflexivity.
  - discriminate.
  - reflexivity.
  - lia.
Defined.

Lemma doWait_short_tip_witness :
  main.doWait 1 more.short_tip scenario.remote "main" 100 []
  = (Some main.Panics,
     more.first_poll
       ++ [io.ev_FindWorkflowRunsForCommit
             "kevinburke" "github-actions" "3f2a9c"]).
Proof.
  apply (doWait_short_tip
           more.short_tip scenario.remote "main" 100 0
           "3f2a9c" (1000 * time.Second) time.zero more.first_poll).
  - apply session.at_first_poll. reflexivity.
  - reflexivity.
  - cbn. lia.
  - lia.
Defined.

Lemma Tip_error_returned_witness :
  main.doWait 1 more.no_branch scenario.remote "main" 100 []
  = (Some (main.Returns more.unknown_revision), [io.ev_Tip "main"]) /\
  open_cmd.doOpen 1 more.no_branch opening.browser scenario.remote "main" []
  = (Some (main.Returns more.unknown_revision), [io.ev_Tip "main"]).
Proof.
  apply (Tip_error_returned
           more.no_branch scenario.remote "main" 100 ""
           more.unknown_revision opening.browser).
  - reflexivity.
  - discriminate.
Defined.

(** ** Sessions of the command [open] *)

Section OpenTheorems.

Import time io lib main session open_cmd opening.

Variable w : World.
Variable openURL : history -> string -> error.
Variable remote : RemoteURL.
Variable branch : string.

Ltac api_simpl :=
  unfold api_calls; rewrite ?filter_app; cbn [filter is_api app];
  rewrite ?app_nil_r; try reflexivity.

(** Every pass sends one request, the poll. *)
Lemma pass_requests (tip : string) (h : history) :
  api_calls (snd (pass w openURL remote tip h))
  = api_calls h
    ++ [ev_FindWorkflowRunsForCommit (Path remote) (RepoName remote) tip].
Proof.
  unfold pass, pause, bind, emit, call, ret.
  destruct (FindWorkflowRunsForCommit w h (Path remote) (RepoName remote) tip)
    as [runs err].
  destruct (negb (is_nil err)).
  - destruct (isHttpError err); [|cbn [snd]; api_simpl].
    destruct (Done w _); cbn [snd]; api_simpl.
  - destruct runs as [|run runs]; [|cbn [snd]; api_simpl].
    destruct (String.length tip <? 8)%nat; [cbn [snd]; api_simpl|].
    destruct (Done w _); cbn [snd]; api_simpl.
Qed.

Lemma passes_requests (tip : string) (fuel : nat) :
  forall h : history,
  exists n,
    (n <= fuel)%nat /\
    api_calls (snd (passes fuel w openURL remote tip h))
    = api_calls h
      ++ repeat (ev_FindWorkflowRunsForCommit (Path remote) (RepoName remote)
                                              tip) n.
Proof.
  induction fuel as [|fuel IH]; intros h.
  - exists 0%nat. cbn. now rewrite app_nil_r.
  - cbn [passes]. unfold bind.
    pose proof (pass_requests tip h) as Hp.
    destruct (pass w openURL remote tip h) as [[|o] h']; cbn [snd] in Hp.
    + destruct (IH h') as (n & Hn & Hcalls).
      exists (S n). split; [lia|].
      rewrite Hcalls, Hp. cbn. now rewrite <- app_assoc.
    + exists 1%nat. split; [lia|]. exact Hp.
Qed.

(** X17.  [doOpen] only polls: whatever happens, it never lists jobs and
    never fetches a log. *)
Theorem doOpen_only_polls (fuel : nat) :
  exists n,
    (n <= fuel)%nat /\
    api_calls (snd (doOpen fuel w openURL remote branch []))
    = repeat (ev_FindWorkflowRunsForCommit (Path remote) (RepoName remote)
                                           (fst (Tip w [] branch))) n.
Proof.
  unfold doOpen, bind, call, ret.
  destruct (Tip w [] branch) as [tip err]. cbn [fst].
  destruct (negb (is_nil err)).
  - exists 0%nat. split; [lia|reflexivity].
  - destruct (passes_requests tip fuel ([] ++ [ev_Tip branch]))
      as (n & Hn & Hcalls).
    exists n. split; [exact Hn | exact Hcalls].
Qed.

Lemma at_pass_sound (k : nat) (tip : string) (h : history) :
  at_pass w openURL remote branch k tip h ->
  api_calls h
  = repeat (ev_FindWorkflowRunsForCommit (Path remote) (RepoName remote) tip)
           k /\
  forall fuel,
    doOpen (k + fuel) w openURL remote branch []
    = passes fuel w openURL remote tip h.
Proof.
  induction 1 as [tip Htip | k tip h h' Hat [IHapi IHrun] Hp].
  - split; [reflexivity|]. intros fuel.
    unfold doOpen, bind, call. now rewrite Htip.
  - split.
    + pose proof (pass_requests tip h) as Hcalls.
      rewrite Hp in Hcalls. cbn [snd] in Hcalls.
      rewrite Hcalls, IHapi.
      change (S k) with (1 + k)%nat. rewrite Nat.add_comm, repeat_app.
      reflexivity.
    + intros fuel.
      replace (S k + fuel)%nat with (k + S fuel)%nat by lia.
      rewrite IHrun. cbn [passes]. unfold bind. now rewrite Hp.
Qed.

(** X18.  As soon as a poll returns runs, [doOpen] opens the page of the
    first of them, whatever its status, and returns what the browser
    launcher returned; it has sent its polls and nothing else. *)
Theorem doOpen_first_run (k : nat) (tip : string) (h : history)
        (run : WorkflowRun.t) (runs : list WorkflowRun.t) :
  at_pass w openURL remote branch k tip h ->
  FindWorkflowRunsForCommit w h (Path remote) (RepoName remote) tip
  = (run :: runs, nil_error) ->
  let h1 :=
    h ++ [ev_FindWorkflowRunsForCommit (Path remote) (RepoName remote) tip] in
  (forall fuel,
      (k < fuel)%nat ->
      doOpen fuel w openURL remote branch []
      = (Some (Returns (openURL h1 (WorkflowRun.HTMLURL run))), h1)) /\
  api_calls h1
  = repeat (ev_FindWorkflowRunsForCommit (Path remote) (RepoName remote) tip)
           (S k).
Proof.
  intros Hat Hpoll h1.
  destruct (at_pass_sound k tip h Hat) as [Hcalls Hrun].
  split.
  - intros fuel Hfuel.
    replace fuel with (k + S (fuel - S k))%nat by lia.
    rewrite Hrun. cbn [passes]. unfold bind, pass, bind, call.
    rewrite Hpoll. reflexivity.
  - unfold h1. rewrite <- repeat_snoc, api_calls_app, Hcalls. reflexivity.
Qed.

End OpenTheorems.

Lemma doOpen_first_run_witness :
  open_cmd.doOpen 1 scenario.build_succeeds opening.browser scenario.remote
                  "main" []
  = (Some (main.Returns nil_error),
     [io.ev_Tip "main";
      io.ev_FindWorkflowRunsForCommit "kevinburke" "github-actions"
                                      scenario.sha]).
Proof.
  destruct (doOpen_first_run
              scenario.build_succeeds opening.browser scenario.remote "main"
              0 scenario.sha [io.ev_Tip "main"] scenario.succeeded_run [])
    as [Hrun _].
  - apply opening.at_first_pass. reflexivity.
  - reflexivity.
  - exact (Hrun 1%nat ltac:(lia)).
Defined.

(** ** The token of a host *)

Section TokenTheorems.

Import config.

Variable sys : System.

Lemma nonempty_true (s : string) : nonempty s = true -> s <> EmptyString.
Proof.
  unfold nonempty. intros H ->. discriminate H.
Qed.

Lemma nonempty_false (s : string) : nonempty s = false -> s = EmptyString.
Proof.
  unfold nonempty. intros H. apply negb_false_iff in H.
  now apply String.eqb_eq in H.
Qed.

Lemma is_nil_true (err : error) : is_nil err = true -> err = nil_error.
Proof. now destruct err. Qed.

Lemma is_nil_false (err : error) : is_nil err = false -> err <> nil_error.
Proof. now destruct err. Qed.

Lemma host_token_found (cfg : FileConfig) (key token : string) :
  host_token cfg key = Some token ->
  token <> EmptyString /\
  exists entry, Hosts cfg key = Some entry /\ Token entry = token.
Proof.
  unfold host_token. destruct (Hosts cfg key) as [entry|]; [|discriminate].
  destruct (nonempty (Token entry)) eqn:E; [|discriminate].
  intros [= <-]. split; [now apply nonempty_true | eauto].
Qed.

(** What [getCfgPath] returns without error is empty or a file that
    exists. *)
Lemma getCfgPath_found (path : string) :
  getCfgPath sys = (path, nil_error) ->
  path = EmptyString \/ checkFile sys path = true.
Proof.
  unfold getCfgPath.
  destruct (negb (is_None (LookupEnv sys "XDG_CONFIG_HOME"))
            && checkFile sys _) eqn:Exdg.
  - intros [= <-]. right. now apply andb_true_iff in Exdg.
  - destruct (UserHomeDir sys) as [homeDir err].
    destruct (negb (is_nil err)); [discriminate|].
    destruct (checkFile sys (Join sys [homeDir; "cfg"; "github-actions"]%string))
      eqn:Ecfg; [intros [= <-]; now right|].
    destruct (checkFile sys (Join sys [homeDir; ".github-actions"]%string))
      eqn:Elocal; intros [= <-]; [now right | now left].
Qed.

(** X19.  [GetToken] returns a token that is not empty and no error, or
    an empty token and an error; never both, never neither. *)
Theorem GetToken_token_or_error (host : string) :
  (snd (GetToken sys host) = nil_error /\
   fst (GetToken sys host) <> EmptyString) \/
  (snd (GetToken sys host) <> nil_error /\
   fst (GetToken sys host) = EmptyString).
Proof.
  unfold GetToken.
  destruct (nonempty (Getenv sys "GH_TOKEN")) eqn:Egh.
  { left. split; [reflexivity | now apply nonempty_true]. }
  destruct (nonempty (Getenv sys "GITHUB_TOKEN")) eqn:Egithub.
  { left. split; [reflexivity | now apply nonempty_true]. }
  destruct (getCfgPath sys) as [cfgPath err].
  destruct (is_nil err) eqn:Eerr; cbn [negb].
  2: { right. split; [now apply is_nil_false | reflexivity]. }
  destruct (String.eqb cfgPath ""). { right. split; [discriminate|reflexivity]. }
  destruct (is_nil (Open sys cfgPath)) eqn:Eopen; cbn [negb].
  2: { right. split; [now apply is_nil_false | reflexivity]. }
  destruct (Decode sys cfgPath) as [cfg derr].
  destruct (is_nil derr) eqn:Ederr; cbn [negb].
  2: { right. split; [now apply is_nil_false | reflexivity]. }
  destruct (host_token cfg host) as [token|] eqn:Ehost.
  { left. split; [reflexivity | now apply (host_token_found cfg host)]. }
  destruct (if nonempty (Default cfg) then host_token cfg (Default cfg)
            else None) as [token|] eqn:Edefault.
  { left. split; [reflexivity|].
    destruct (nonempty (Default cfg)); [|discriminate].
    now apply (host_token_found cfg (Default cfg)). }
  destruct (host_token cfg "github.com") as [token|] eqn:Egithubcom.
  { left. split; [reflexivity | now apply (host_token_found cfg "github.com")]. }
  right. split; [discriminate|reflexivity].
Qed.

(** X20.  A token in the environment is all [GetToken] looks at: the
    host asked for, the home directory and the configuration files make
    no difference.  [GH_TOKEN] goes before [GITHUB_TOKEN], and a variable
    that is set but empty counts as not set. *)
Theorem GetToken_environment (sys' : System) (host host' : string) :
  Getenv sys' "GH_TOKEN" = Getenv sys "GH_TOKEN" ->
  Getenv sys' "GITHUB_TOKEN" = Getenv sys "GITHUB_TOKEN" ->
  Getenv sys "GH_TOKEN" <> EmptyString \/
  Getenv sys "GITHUB_TOKEN" <> EmptyString ->
  GetToken sys' host' = GetToken sys host /\
  GetToken sys host
  = (if nonempty (Getenv sys "GH_TOKEN") then Getenv sys "GH_TOKEN"
     else Getenv sys "GITHUB_TOKEN", nil_error).
Proof.
  intros Hgh Hgithub Hset. unfold GetToken. rewrite Hgh, Hgithub.
  destruct (nonempty (Getenv sys "GH_TOKEN")) eqn:Egh; [now split|].
  destruct (nonempty (Getenv sys "GITHUB_TOKEN")) eqn:Egithub; [now split|].
  apply nonempty_false in Egh, Egithub. tauto.
Qed.

(** X21.  Without a token in the environment, a token that [GetToken]
    returns comes from the configuration file: the file is one that
    [getCfgPath] found to exist, it was opened and decoded without
    error, and the token is the one, not empty, of the entry of the host
    asked for, of the default host of the file or of github.com.  The
    entry of the host asked for, when it has a token, goes first. *)
Theorem GetToken_from_file (host token : string) :
  Getenv sys "GH_TOKEN" = EmptyString ->
  Getenv sys "GITHUB_TOKEN" = EmptyString ->
  GetToken sys host = (token, nil_error) ->
  exists path cfg key entry,
    getCfgPath sys = (path, nil_error) /\
    checkFile sys path = true /\
    Open sys path = nil_error /\
    Decode sys path = (cfg, nil_error) /\
    In key [host; Default cfg; "github.com"%string] /\
    Hosts cfg key = Some entry /\
    Token entry = token /\
    token <> EmptyString /\
    (forall entry',
        Hosts cfg host = Some entry' ->
        Token entry' <> EmptyString ->
        token = Token entry').
Proof.
  intros Hgh Hgithub. unfold GetToken. rewrite Hgh, Hgithub.
  cbn [nonempty String.eqb negb].
  pose proof (getCfgPath_found) as Hfound.
  destruct (getCfgPath sys) as [cfgPath err].
  destruct (is_nil err) eqn:Eerr; cbn [negb];
    [apply is_nil_true in Eerr; subst err
    |intros [= _ ->]; discriminate Eerr].
  destruct (String.eqb_spec cfgPath "") as [|Hpath]; [discriminate|].
  destruct (Hfound cfgPath eq_refl) as [|Hexists]; [contradiction|].
  destruct (is_nil (Open sys cfgPath)) eqn:Eopen; cbn [negb];
    [apply is_nil_true in Eopen
    |intros [= _ Hnil]; rewrite Hnil in Eopen; discriminate Eopen].
  destruct (Decode sys cfgPath) as [cfg derr] eqn:Edecode.
  destruct (is_nil derr) eqn:Ederr; cbn [negb];
    [apply is_nil_true in Ederr; subst derr
    |intros [= _ ->]; discriminate Ederr].
  assert (Hfirst : forall t,
             host_token cfg host = Some t ->
             forall entry',
               Hosts cfg host = Some entry' ->
               Token entry' <> EmptyString -> t = Token entry').
  { intros t Ht entry' Hentry _.
    destruct (host_token_found cfg host t Ht) as (_ & e & He & <-).
    congruence. }
  assert (Hskipped : host_token cfg host = None ->
                     forall entry',
                       Hosts cfg host = Some entry' ->
                       Token entry' <> EmptyString -> token = Token entry').
  { unfold host_token. intros Hnone entry' Hentry Hne. rewrite Hentry in Hnone.
    destruct (nonempty (Token entry')) eqn:E; [discriminate|].
    now apply nonempty_false in E. }
  assert (Hconclude : forall key t,
             host_token cfg key = Some t ->
             In key [host; Default cfg; "github.com"%string] ->
             (forall entry',
                 Hosts cfg host = Some entry' ->
                 Token entry' <> EmptyString -> t = Token entry') ->
             exists path cfg0 key0 entry,
               (cfgPath, nil_error) = (path, nil_error) /\
               checkFile sys path = true /\
               Open sys path = nil_error /\
               Decode sys path = (cfg0, nil_error) /\
               In key0 [host; Default cfg0; "github.com"%string] /\
               Hosts cfg0 key0 = Some entry /\
               Token entry = t /\
               t <> EmptyString /\
               (forall entry',
                   Hosts cfg0 host = Some entry' ->
                   Token entry' <> EmptyString -> t = Token entry')).
  { intros key t Ht Hkey Hhost.
    destruct (host_token_found cfg key t Ht) as (Hne & entry & He & Hentry).
    exists cfgPath, cfg, key, entry. tauto. }
  destruct (host_token cfg host) as [t|] eqn:Ehost.
  { intros [= <-]. apply (Hconclude host t Ehost); [now left|].
    now apply Hfirst. }
  destruct (nonempty (Default cfg)) eqn:Edefault.
  - destruct (host_token cfg (Default cfg)) as [t|] eqn:Edef.
    { intros [= <-].
      apply (Hconclude (Default cfg) t Edef); [right; now left|].
      now apply Hskipped. }
    destruct (host_token cfg "github.com") as [t|] eqn:Egithubcom;
      [|discriminate].
    intros [= <-].
    apply (Hconclude "github.com"%string t Egithubcom);
      [right; right; now left|].
    now apply Hskipped.
  - destruct (host_token cfg "github.com") as [t|] eqn:Egithubcom;
      [|discriminate].
    intros [= <-].
    apply (Hconclude "github.com"%string t Egithubcom);
      [right; right; now left|].
    now apply Hskipped.
Qed.

End TokenTheorems.

Lemma GetToken_environment_witness :
  config.GetToken machine.ci_shell "ghe.example.com"
  = config.GetToken machine.ci_checkout "github.com" /\
  config.GetToken machine.ci_checkout "github.com"
  = ("ghs_ci"%string, nil_error).
Proof.
  apply (GetToken_environment machine.ci_checkout machine.ci_shell
                              "github.com" "ghe.example.com").
  - reflexivity.
  - reflexivity.
  - right. discriminate.
Defined.

Lemma GetToken_from_file_witness :
  exists path cfg key entry,
    config.getCfgPath machine.laptop = (path, nil_error) /\
    config.checkFile machine.laptop path = true /\
    config.Open machine.laptop path = nil_error /\
    config.Decode machine.laptop path = (cfg, nil_error) /\
    In key ["github.com"%string; config.Default cfg; "github.com"%string] /\
    config.Hosts cfg key = Some entry /\
    config.Token entry = "ghp_default"%string /\
    "ghp_default"%string <> EmptyString /\
    (forall entry',
        config.Hosts cfg "github.com" = Some entry' ->
        config.Token entry' <> EmptyString ->
        "ghp_default"%string = config.Token entry').
Proof.
  apply (GetToken_from_file machine.laptop "github.com" "ghp_default").
  - reflexivity.
  - reflexivity.
  - reflexivity.
Defined.

(** ** The table of a run *)

Section TableTheorems.

Import io lib client session.

Ltac api_simpl :=
  unfold api_calls; rewrite ?filter_app; cbn [filter is_api app];
  rewrite ?app_nil_r; try reflexivity.

(** X22.  [BuildJobsSummary] sends one request, for the jobs of the run,
    and returns data that starts with a newline.  What [BuildSummary]
    returns for the same run starts with that data; it adds to it exactly
    when the jobs could be listed. *)
Theorem BuildJobsSummary_prefix (w : World) (owner repo : string)
        (run : WorkflowRun.t) (numOutputLines : Z) (h : history) :
  let table := fst (BuildJobsSummary w owner repo run h) in
  (exists data, table = nl :: data) /\
  api_calls (snd (BuildJobsSummary w owner repo run h))
  = api_calls h ++ [ev_ListJobs owner repo (WorkflowRun.ID run)] /\
  exists more,
    fst (BuildSummary w owner repo run numOutputLines h)
    = Some (table ++ more) /\
    (more = [] <-> snd (ListJobs w h owner repo (WorkflowRun.ID run))
                   <> nil_error).
Proof.
  cbv zeta. unfold BuildJobsSummary, BuildSummary, bind, call, isatty, ret.
  destruct (ListJobs w h owner repo (WorkflowRun.ID run)) as [jobs err].
  set (h1 := h ++ [ev_ListJobs owner repo (WorkflowRun.ID run)]).
  assert (Hh1 : api_calls h1
                = api_calls h ++ [ev_ListJobs owner repo (WorkflowRun.ID run)])
    by (unfold h1; api_simpl).
  destruct err; cbn [is_nil negb fst snd].
  2-6: split; [eexists; reflexivity|]; split; [exact Hh1|]; exists [];
         split; [now rewrite app_nil_r|]; split; congruence.
  destruct (buildJobsSummary_head (IsTerminal w h1) (JobsResponse.Jobs jobs))
    as [table Htable].
  destruct (buildJobsSummary (IsTerminal w h1) (JobsResponse.Jobs jobs))
    as [summary failedJob].
  cbn [fst snd] in *. subst summary.
  split; [eauto|]. split; [exact Hh1|].
  assert (Hfailure : exists failure h2,
             fetch_failure w owner repo failedJob numOutputLines h1
             = (Some failure, h2)).
  { unfold fetch_failure, bind, call, ret.
    destruct failedJob as [job|]; [|eauto].
    destruct (GetJobLogs w h1 owner repo (Job.ID job)) as [logs err].
    destruct (is_nil err); [|eauto].
    rewrite findBuildFailure_lines. eauto. }
  destruct Hfailure as (failure & h2 & ->).
  rewrite slice_from_tail. cbn [fst]. eexists. split; [reflexivity|].
  unfold buf2. split; [discriminate | congruence].
Qed.

End TableTheorems.

(** ** The status lines of a session *)

Section StatusTheorems.

Import time io lib main session.

Lemma durToUse_least (elapsed : Duration) : 10 * Second <= durToUse elapsed.
Proof.
  unfold durToUse, Minute, Second, Millisecond, Microsecond, Nanosecond.
  repeat match goal with
         | |- context [?a <? ?b] => destruct (Z.ltb_spec a b)
         end; lia.
Qed.

(** X23.  While runs are still running, a pass whose clock is not more
    than ten seconds past the previous print prints nothing: it sends its
    poll, reads the clock twice and waits three seconds, and the time of
    the previous print stays as it was. *)
Theorem doWait_status_throttled (w : World) (remote : RemoteURL)
        (branch tip : string) (numOutputLines : Z)
        (startTime lastPrintedAt : Time) (h : history)
        (runs : list WorkflowRun.t) :
  FindWorkflowRunsForCommit w h (Path remote) (RepoName remote) tip
  = (runs, nil_error) ->
  runs <> [] ->
  forallb WorkflowRun.IsCompleted runs = false ->
  let h2 :=
    h ++ [ev_FindWorkflowRunsForCommit (Path remote) (RepoName remote) tip;
          ev_Now] in
  Now w h2 <= lastPrintedAt + 10 * Second ->
  cycle w remote branch tip numOutputLines startTime lastPrintedAt h
  = wait w (3 * Second) lastPrintedAt (h2 ++ [ev_Now]).
Proof.
  intros Hpoll Hne Hrunning h2 Hclock.
  unfold cycle, bind, now, call. rewrite Hpoll. cbn [is_nil negb].
  rewrite (len_nonempty runs Hne), inspect_spec, Hrunning. cbn [andb].
  unfold still_running, bind, now, call, ret.
  replace ((h ++ [ev_FindWorkflowRunsForCommit (Path remote) (RepoName remote)
                                               tip]) ++ [ev_Now])
    with h2 by (unfold h2; now rewrite <- app_assoc).
  match goal with
  | |- context [shouldPrint (Now w h2) lastPrintedAt ?e] =>
      pose proof (durToUse_least e) as Hleast;
      assert (Hdue : shouldPrint (Now w h2) lastPrintedAt e = false)
  end.
  { unfold shouldPrint, Before, Add. apply Z.ltb_ge. lia. }
  rewrite Hdue. reflexivity.
Qed.

End StatusTheorems.

Lemma doWait_status_throttled_witness :
  main.cycle more.never_done scenario.remote "main" scenario.sha 100
             (1000 * time.Second) (995 * time.Second) more.first_poll
  = main.wait more.never_done (3 * time.Second) (995 * time.Second)
              (more.first_poll
                 ++ [io.ev_FindWorkflowRunsForCommit
                       "kevinburke" "github-actions" scenario.sha;
                     io.ev_Now; io.ev_Now]).
Proof.
  apply (doWait_status_throttled
           more.never_done scenario.remote "main" scenario.sha 100
           (1000 * time.Second) (995 * time.Second) more.first_poll
           [more.running_run]).
  - reflexivity.
  - discriminate.
  - reflexivity.
  - vm_compute. discriminate.
Defined.
